(** * ThemeRemoteConfig: the remote-config theme service and its provider

    A shallow embedding of [src/services/remoteConfig.ts]
    ([RemoteConfigService]), [src/theme/ThemeContext.tsx] ([ThemeProvider])
    and [src/theme/types.ts] ([Theme], [DEFAULT_THEME]).

    The code is asynchronous TypeScript that talks to two key-value stores
    (AsyncStorage and Firebase Remote Config) and to React state setters.
    It is embedded as programs of a small free monad [prog]: a program either
    returns, throws, or performs one platform operation and continues with
    its outcome.  Two interpreters give the programs their meaning: [run]
    executes one call to completion, and [resume]/[run_sched] interleave
    several pending calls at their [await] points. *)

From Stdlib Require Import ZArith Ascii DecimalString DecimalFacts DecimalPos.
From stdpp Require Import base option list gmap strings.

Open Scope Z_scope.

(** ** JavaScript values *)

(** The numbers that are no finite quantity.  [JSON.parse] yields the
    infinite ones on a literal too large for a double, arithmetic yields all
    three, and [JSON.stringify] writes each of them as [null]. *)
Inductive nonfinite : Type := NaN | Infinity | NegInfinity.

(** What a theme can be at run time: what [JSON.parse] can return, and the
    non-finite numbers.  Objects keep their fields in insertion order, as
    [JSON.stringify] emits them.  The finite numbers are integers: every
    number of the repository's themes is one, and fractions are outside the
    model. *)
#[warnings="-register-all"]
Inductive value : Type :=
| JNull
| JBool (b : bool)
| JNumber (n : Z)
| JString (s : string)
| JArray (items : list value)
| JObject (fields : list (string * value))
| JNonFinite (n : nonfinite).

(** The truthiness test of [if (newTheme)] and of [cachedTheme ? ... : ...]
    on such a value. *)
Definition truthy (v : value) : bool :=
  match v with
  | JNull => false
  | JBool b => b
  | JNumber n => negb (n =? 0)
  | JString s => negb (String.eqb s "")
  | JArray _ | JObject _ => true
  | JNonFinite NaN => false
  | JNonFinite _ => true
  end.

(** Property access [o.k] on a value; [None] stands for [undefined]. *)
Fixpoint assoc (k : string) (fields : list (string * value)) : option value :=
  match fields with
  | [] => None
  | (k', v) :: rest => if String.eqb k k' then Some v else assoc k rest
  end.

Definition get (k : string) (v : value) : option value :=
  match v with
  | JObject fields => assoc k fields
  | _ => None
  end.

(** What can be thrown: an [Error] object with its message (the rejections of
    the platform calls and the [SyntaxError] of [JSON.parse] are such), or a
    value that is not an [Error]. *)
Inductive exn : Type :=
| Error (message : string)
| NotAnError (v : value).

(** ** [src/theme/types.ts] *)

Record ThemeColors : Type := {
  primary : string;
  secondary : string;
  background : string;
  surface : string;
  text : string;
  textSecondary : string;
  error : string;
  success : string;
  warning : string
}.

Module FontSize.
Record t : Type := { small : Z; medium : Z; large : Z; xlarge : Z }.
End FontSize.

Module FontWeight.
Record t : Type := { regular : string; medium : string; bold : string }.
End FontWeight.

Record ThemeTypography : Type := {
  fontFamily : string;
  fontSize : FontSize.t;
  fontWeight : FontWeight.t
}.

Record ThemeSpacing : Type := { xs : Z; sm : Z; md : Z; lg : Z; xl : Z }.

Record Theme : Type := {
  colors : ThemeColors;
  typography : ThemeTypography;
  spacing : ThemeSpacing
}.

Definition DEFAULT_THEME : Theme := {|
  colors := {|
    primary := "#007AFF";
    secondary := "#5856D6";
    background := "#FFFFFF";
    surface := "#F2F2F7";
    text := "#000000";
    textSecondary := "#8E8E93";
    error := "#FF3B30";
    success := "#34C759";
    warning := "#FF9500"
  |};
  typography := {|
    fontFamily := "System";
    fontSize := {| FontSize.small := 12; FontSize.medium := 16;
                   FontSize.large := 20; FontSize.xlarge := 24 |};
    fontWeight := {| FontWeight.regular := "400"; FontWeight.medium := "500";
                     FontWeight.bold := "700" |}
  |};
  spacing := {| xs := 4; sm := 8; md := 16; lg := 24; xl := 32 |}
|}.

(** A typed [Theme] as the object it is at run time (TypeScript's types are
    erased): the fields in the order of the interfaces. *)
Definition colors_value (c : ThemeColors) : value :=
  JObject [("primary", JString (primary c));
           ("secondary", JString (secondary c));
           ("background", JString (background c));
           ("surface", JString (surface c));
           ("text", JString (text c));
           ("textSecondary", JString (textSecondary c));
           ("error", JString (error c));
           ("success", JString (success c));
           ("warning", JString (warning c))].

Definition typography_value (t : ThemeTypography) : value :=
  JObject [("fontFamily", JString (fontFamily t));
           ("fontSize",
            JObject [("small", JNumber (FontSize.small (fontSize t)));
                     ("medium", JNumber (FontSize.medium (fontSize t)));
                     ("large", JNumber (FontSize.large (fontSize t)));
                     ("xlarge", JNumber (FontSize.xlarge (fontSize t)))]);
           ("fontWeight",
            JObject [("regular", JString (FontWeight.regular (fontWeight t)));
                     ("medium", JString (FontWeight.medium (fontWeight t)));
                     ("bold", JString (FontWeight.bold (fontWeight t)))])].

Definition spacing_value (s : ThemeSpacing) : value :=
  JObject [("xs", JNumber (xs s)); ("sm", JNumber (sm s));
           ("md", JNumber (md s)); ("lg", JNumber (lg s));
           ("xl", JNumber (xl s))].

Definition theme_value (t : Theme) : value :=
  JObject [("colors", colors_value (colors t));
           ("typography", typography_value (typography t));
           ("spacing", spacing_value (spacing t))].

(** The values without a non-finite number in them: those [JSON.stringify]
    writes without putting [null] for a number. *)
Fixpoint finite (v : value) : bool :=
  match v with
  | JNonFinite _ => false
  | JArray items => forallb finite items
  | JObject fields => forallb (fun kv => finite kv.2) fields
  | _ => true
  end.

(** The shape the interfaces of [types.ts] require of a run-time value:
    every declared field present, strings where [string] is declared and
    numbers where [number] is. *)
Definition has_string (k : string) (v : value) : bool :=
  match get k v with Some (JString _) => true | _ => false end.

Definition has_number (k : string) (v : value) : bool :=
  match get k v with
  | Some (JNumber _) | Some (JNonFinite _) => true
  | _ => false
  end.

Definition has_object (k : string) (shape : value -> bool) (v : value) : bool :=
  match get k v with Some (JObject f) => shape (JObject f) | _ => false end.

Definition is_ThemeColors (v : value) : bool :=
  forallb (fun k => has_string k v)
    ["primary"; "secondary"; "background"; "surface"; "text";
     "textSecondary"; "error"; "success"; "warning"].

Definition is_ThemeTypography (v : value) : bool :=
  has_string "fontFamily" v
  && has_object "fontSize"
       (fun o => forallb (fun k => has_number k o)
                   ["small"; "medium"; "large"; "xlarge"]) v
  && has_object "fontWeight"
       (fun o => forallb (fun k => has_string k o)
                   ["regular"; "medium"; "bold"]) v.

Definition is_ThemeSpacing (v : value) : bool :=
  forallb (fun k => has_number k v) ["xs"; "sm"; "md"; "lg"; "xl"].

Definition is_Theme (v : value) : bool :=
  has_object "colors" is_ThemeColors v
  && has_object "typography" is_ThemeTypography v
  && has_object "spacing" is_ThemeSpacing v.

(** ** The platform: AsyncStorage, Remote Config, service and React state *)

(** The operations the code performs on its collaborators, each indexed by
    the type of what it yields.  The first five are the awaited calls of
    [@react-native-firebase/remote-config] and AsyncStorage; the others are
    synchronous: the read of the activated value, the [initialized] field of
    the service singleton, and the state setters of the provider. *)
Inductive op : Type -> Type :=
| SetConfigSettings (minimumFetchIntervalMillis fetchTimeMillis : Z) : op unit
| SetDefaults (defaults : gmap string string) : op unit
| FetchAndActivate : op bool
| GetItem (key : string) : op (option string)
| SetItem (key item : string) : op unit
| GetValueAsString (key : string) : op string
| GetInitialized : op bool
| SetInitialized (b : bool) : op unit
| SetTheme (v : value) : op unit
| SetIsLoading (b : bool) : op unit
| SetError (e : option string) : op unit.

(** The awaited calls: a pending caller is suspended at them. *)
Definition is_async {X} (o : op X) : bool :=
  match o with
  | SetConfigSettings _ _ | SetDefaults _ | FetchAndActivate
  | GetItem _ | SetItem _ _ => true
  | _ => false
  end.

(** The awaited calls as they appear in the log of the platform. *)
Inductive event : Type :=
| EvSetConfigSettings (minimumFetchIntervalMillis fetchTimeMillis : Z)
| EvSetDefaults (defaults : gmap string string)
| EvFetchAndActivate
| EvGetItem (key : string)
| EvSetItem (key item : string).

(** Firebase Remote Config, as far as the theme service sees it: the settings
    last configured, the in-app defaults, the activated values, and the
    values the backend would deliver to the next fetch. *)
Record RemoteConfig : Type := {
  rc_settings : option (Z * Z);
  rc_defaults : gmap string string;
  rc_active : gmap string string;
  rc_backend : gmap string string
}.

(** The state of [ThemeProvider]: its three [useState] cells. *)
Record Provider : Type := {
  theme : value;
  isLoading : bool;
  error_message : option string
}.

(** The whole world a call runs in.  [clock] counts the awaited platform
    calls made so far; [rc_faults] and [storage_faults] say, for each time,
    whether a call to Remote Config or to AsyncStorage made at that time is
    rejected, and with what.  [trace] logs the awaited calls, latest first. *)
Record World : Type := {
  initialized : bool;
  storage : gmap string string;
  remote : RemoteConfig;
  provider : Provider;
  clock : nat;
  rc_faults : nat -> option exn;
  storage_faults : nat -> option exn;
  trace : list event
}.

Definition with_initialized (b : bool) (w : World) : World :=
  {| initialized := b; storage := storage w; remote := remote w;
     provider := provider w; clock := clock w; rc_faults := rc_faults w;
     storage_faults := storage_faults w; trace := trace w |}.

Definition with_storage (s : gmap string string) (w : World) : World :=
  {| initialized := initialized w; storage := s; remote := remote w;
     provider := provider w; clock := clock w; rc_faults := rc_faults w;
     storage_faults := storage_faults w; trace := trace w |}.

Definition with_remote (r : RemoteConfig) (w : World) : World :=
  {| initialized := initialized w; storage := storage w; remote := r;
     provider := provider w; clock := clock w; rc_faults := rc_faults w;
     storage_faults := storage_faults w; trace := trace w |}.

Definition with_provider (p : Provider) (w : World) : World :=
  {| initialized := initialized w; storage := storage w; remote := remote w;
     provider := p; clock := clock w; rc_faults := rc_faults w;
     storage_faults := storage_faults w; trace := trace w |}.

(** An awaited call is made: it is logged and the clock advances. *)
Definition called (e : event) (w : World) : World :=
  {| initialized := initialized w; storage := storage w; remote := remote w;
     provider := provider w; clock := S (clock w); rc_faults := rc_faults w;
     storage_faults := storage_faults w; trace := e :: trace w |}.

(** An awaited call settles: rejected with the scheduled fault, if there is
    one (it then leaves its store as it was), else fulfilled with [x] in the
    world [w']. *)
Definition settle_call {X} (fault : option exn) (e : event) (x : X)
    (w w' : World) : (exn + X) * World :=
  match fault with
  | Some err => (inl err, called e w)
  | None => (inr x, called e w')
  end.

(** [remoteConfig().getValue(key).asString()]: the activated value, else the
    in-app default, else the empty string. *)
Definition getValue_asString (key : string) (r : RemoteConfig) : string :=
  match rc_active r !! key with
  | Some s => s
  | None => match rc_defaults r !! key with
            | Some s => s
            | None => ""
            end
  end.

(** What each operation does to the world and yields. *)
Definition exec {X} (o : op X) (w : World) : (exn + X) * World :=
  match o in op X return (exn + X) * World with
  | SetConfigSettings m f =>
      settle_call (rc_faults w (clock w)) (EvSetConfigSettings m f) tt w
        (with_remote {| rc_settings := Some (m, f);
                        rc_defaults := rc_defaults (remote w);
                        rc_active := rc_active (remote w);
                        rc_backend := rc_backend (remote w) |} w)
  | SetDefaults d =>
      settle_call (rc_faults w (clock w)) (EvSetDefaults d) tt w
        (with_remote {| rc_settings := rc_settings (remote w);
                        rc_defaults := d;
                        rc_active := rc_active (remote w);
                        rc_backend := rc_backend (remote w) |} w)
  | FetchAndActivate =>
      settle_call (rc_faults w (clock w)) EvFetchAndActivate true w
        (with_remote {| rc_settings := rc_settings (remote w);
                        rc_defaults := rc_defaults (remote w);
                        rc_active := rc_backend (remote w);
                        rc_backend := rc_backend (remote w) |} w)
  | GetItem k =>
      settle_call (storage_faults w (clock w)) (EvGetItem k)
        (storage w !! k) w w
  | SetItem k s =>
      settle_call (storage_faults w (clock w)) (EvSetItem k s) tt w
        (with_storage (<[k := s]> (storage w)) w)
  | GetValueAsString k => (inr (getValue_asString k (remote w)), w)
  | GetInitialized => (inr (initialized w), w)
  | SetInitialized b => (inr tt, with_initialized b w)
  | SetTheme v =>
      (inr tt, with_provider {| theme := v;
                                isLoading := isLoading (provider w);
                                error_message := error_message (provider w) |} w)
  | SetIsLoading b =>
      (inr tt, with_provider {| theme := theme (provider w);
                                isLoading := b;
                                error_message := error_message (provider w) |} w)
  | SetError e =>
      (inr tt, with_provider {| theme := theme (provider w);
                                isLoading := isLoading (provider w);
                                error_message := e |} w)
  end.

(** ** Programs *)

(** A program returns, throws, or performs an operation and goes on with its
    outcome: the value it yields, or the exception it is rejected with. *)
Inductive prog (A : Type) : Type :=
| Ret (a : A)
| Throw (e : exn)
| Do {X : Type} (o : op X) (k : exn + X -> prog A).

Arguments Ret {A} a.
Arguments Throw {A} e.
Arguments Do {A X} o k.

Fixpoint bind {A B} (p : prog A) (f : A -> prog B) : prog B :=
  match p with
  | Ret a => f a
  | Throw e => Throw e
  | Do o k => Do o (fun r => bind (k r) f)
  end.

Notation "x <- p ;; q" := (bind p (fun x => q))
  (at level 100, p at next level, right associativity).
Notation "p ;; q" := (bind p (fun _ => q))
  (at level 100, right associativity).

(** [await o]: perform [o]; a rejection is thrown at the caller. *)
Definition call {X} (o : op X) : prog X :=
  Do o (fun r => match r with inl e => Throw e | inr x => Ret x end).

(** [try { p } catch (e) { h e }]. *)
Fixpoint try_catch {A} (p : prog A) (h : exn -> prog A) : prog A :=
  match p with
  | Ret a => Ret a
  | Throw e => h e
  | Do o k => Do o (fun r => try_catch (k r) h)
  end.

(** [try { p } finally { q }]: [q] runs either way, and what [p] threw is
    thrown again after it. *)
Fixpoint finally {A} (p : prog A) (q : prog unit) : prog A :=
  match p with
  | Ret a => q ;; Ret a
  | Throw e => q ;; Throw e
  | Do o k => Do o (fun r => finally (k r) q)
  end.

(** One call run to completion, with nothing else interleaved. *)
Fixpoint run {A} (p : prog A) (w : World) : (exn + A) * World :=
  match p with
  | Ret a => (inr a, w)
  | Throw e => (inl e, w)
  | Do o k => let (r, w') := exec o w in run (k r) w'
  end.

(** ** [JSON.parse] and [JSON.stringify] *)

(** The codec of the JavaScript runtime.  [JSON_parse s = None] stands for
    [JSON.parse(s)] throwing its [SyntaxError].  The service is embedded over
    any codec; [Reference] below gives one to compute with. *)
Class JSON : Type := {
  JSON_parse : string -> option value;
  JSON_stringify : value -> string
}.

Definition SyntaxError : exn := Error "SyntaxError".

(** ** [src/services/remoteConfig.ts]

    The [console.log] and [console.error] calls are left out: they change
    nothing the code reads. *)

Definition THEME_CACHE_KEY : string := "@theme_cache".
Definition THEME_CONFIG_KEY : string := "app_theme".

Section RemoteConfigService.
Context `{JSON}.

Definition parse (s : string) : prog value :=
  match JSON_parse s with
  | Some v => Ret v
  | None => Throw SyntaxError
  end.

(** [private async getCachedTheme(): Promise<Theme>].  The item read is a
    string or [null]; [cachedTheme ? ... : null] takes [null] and the empty
    string to the second branch. *)
Definition getCachedTheme : prog value :=
  try_catch
    (cachedTheme <- call (GetItem THEME_CACHE_KEY) ;;
     match cachedTheme with
     | Some text => if truthy (JString text) then parse text else Ret JNull
     | None => Ret JNull
     end)
    (fun _ => Ret JNull).

(** [private async cacheTheme(theme: Theme): Promise<void>] *)
Definition cacheTheme (theme : value) : prog unit :=
  try_catch
    (call (SetItem THEME_CACHE_KEY (JSON_stringify theme)))
    (fun _ => Ret tt).

(** The body of the [try] of [initialize]. *)
Definition initialize_try : prog unit :=
  call (SetConfigSettings 0 0) ;;
  cachedTheme <- getCachedTheme ;;
  call (SetDefaults {[ THEME_CONFIG_KEY := JSON_stringify cachedTheme ]}) ;;
  call (SetInitialized true).

(** [async initialize(): Promise<void>] *)
Definition initialize : prog unit :=
  is_initialized <- call GetInitialized ;;
  if is_initialized then Ret tt
  else try_catch initialize_try (fun error => Throw error).

(** The body of the [try] of [fetchTheme]: the remote fetch path. *)
Definition fetchTheme_try : prog value :=
  initialize ;;
  call FetchAndActivate ;;
  themeString <- call (GetValueAsString THEME_CONFIG_KEY) ;;
  theme <- parse themeString ;;
  cacheTheme theme ;;
  Ret theme.

(** [async fetchTheme(): Promise<Theme>] *)
Definition fetchTheme : prog value :=
  try_catch fetchTheme_try
    (fun _ => cachedTheme <- getCachedTheme ;; Ret cachedTheme).

(** ** [src/theme/ThemeContext.tsx] *)

(** [err instanceof Error ? err.message : 'Failed to fetch theme'] *)
Definition error_text (err : exn) : string :=
  match err with
  | Error message => message
  | NotAnError _ => "Failed to fetch theme"
  end.

(** [const refreshTheme = async () => { ... }] of [ThemeProvider]. *)
Definition refreshTheme : prog unit :=
  finally
    (try_catch
       (call (SetIsLoading true) ;;
        call (SetError None) ;;
        newTheme <- fetchTheme ;;
        if truthy newTheme
        then call (SetTheme newTheme)
        else call (SetTheme (theme_value DEFAULT_THEME)))
       (fun err => call (SetError (Some (error_text err)))))
    (call (SetIsLoading false)).

End RemoteConfigService.

(** The state [ThemeProvider] mounts with: [useState(DEFAULT_THEME)],
    [useState(true)], [useState(null)]. *)
Definition mounted : Provider :=
  {| theme := theme_value DEFAULT_THEME; isLoading := true;
     error_message := None |}.

(** ** Pending calls interleaved *)

(** An [async] function runs synchronously up to its first [await]; a pending
    call is the program left at that point.  [advance] runs the synchronous
    operations at the head of a program. *)
Fixpoint advance {A} (p : prog A) (w : World) : prog A * World :=
  match p with
  | Do o k =>
      if is_async o then (p, w)
      else let (r, w') := exec o w in advance (k r) w'
  | _ => (p, w)
  end.

(** Invoking an [async] function. *)
Definition invoke {A} (p : prog A) (w : World) : prog A * World :=
  advance p w.

(** The awaited operation of a pending call settles and the call goes on to
    its next [await], or to its end. *)
Definition resume {A} (p : prog A) (w : World) : prog A * World :=
  match p with
  | Do o k => let (r, w') := exec o w in advance (k r) w'
  | _ => (p, w)
  end.

Definition finished {A} (p : prog A) : bool :=
  match p with
  | Do _ _ => false
  | _ => true
  end.

Definition fulfilled {A} (p : prog A) : bool :=
  match p with
  | Ret _ => true
  | _ => false
  end.

(** [n] invocations of [p] made one after the other before any of the
    calls is resumed. *)
Fixpoint invoke_all {A} (n : nat) (p : prog A) (w : World)
    : list (prog A) * World :=
  match n with
  | O => ([], w)
  | S n' => let (t, w') := invoke p w in
            let (ts, w'') := invoke_all n' p w' in
            (t :: ts, w'')
  end.

(** A schedule names, step by step, the pending call that is resumed next. *)
Fixpoint run_sched {A} (sched : list nat) (pool : list (prog A)) (w : World)
    : list (prog A) * World :=
  match sched with
  | [] => (pool, w)
  | i :: rest =>
      match pool !! i with
      | Some p => let (p', w') := resume p w in
                  run_sched rest (<[i := p']> pool) w'
      | None => run_sched rest pool w
      end
  end.

(** The schedule that takes the calls [k], [k + 1], ... of [m] pending
    calls to their end one after the other, each through three awaits. *)
Fixpoint one_by_one (k m : nat) : list nat :=
  match m with
  | O => []
  | S m' => k :: k :: k :: one_by_one (S k) m'
  end.

(** The seeding side effect in the log: the calls of [setDefaults]. *)
Definition is_seeding (e : event) : bool :=
  match e with
  | EvSetDefaults _ => true
  | _ => false
  end.

Definition seedings (w : World) : nat :=
  length (List.filter is_seeding (trace w)).

Definition is_cache_write (e : event) : bool :=
  match e with
  | EvSetItem _ _ => true
  | _ => false
  end.

Definition cache_writes (w : World) : nat :=
  length (List.filter is_cache_write (trace w)).

(** ** A reference codec *)

(** A [JSON.stringify] and a [JSON.parse] to compute with, for the JSON of
    integer numbers and byte strings this model has.  The printer writes a
    non-finite number as [null], as [JSON.stringify] does.  The parser follows the
    JSON grammar: insignificant white space, the three literals, numbers
    without superfluous leading zeros, strings with the two-character
    escapes and [\u00XX], arrays and objects.  Fractions, exponents and
    [\u] escapes above one byte are outside the model, and so is the
    reordering of repeated or index-like keys a JavaScript engine makes. *)
Module Reference.

Definition dquote : ascii := "034"%char.
Definition backslash : ascii := "092"%char.

Definition hex_digit (n : N) : ascii :=
  ascii_of_N (if (n <? 10)%N then 48 + n else 87 + n)%N.

Definition hex_value (c : ascii) : option N :=
  let n := N_of_ascii c in
  if ((48 <=? n) && (n <=? 57))%N then Some (n - 48)%N
  else if ((97 <=? n) && (n <=? 102))%N then Some (n - 87)%N
  else if ((65 <=? n) && (n <=? 70))%N then Some (n - 55)%N
  else None.

(** How [JSON.stringify] writes one character of a string. *)
Definition escape (c : ascii) : string :=
  let n := N_of_ascii c in
  if Ascii.eqb c dquote then String backslash (String dquote "")
  else if Ascii.eqb c backslash then String backslash (String backslash "")
  else if (n =? 8)%N then String backslash "b"
  else if (n =? 9)%N then String backslash "t"
  else if (n =? 10)%N then String backslash "n"
  else if (n =? 12)%N then String backslash "f"
  else if (n =? 13)%N then String backslash "r"
  else if (n <? 32)%N then
    String backslash
      (String "u" (String "0" (String "0"
         (String (hex_digit (n / 16)) (String (hex_digit (n mod 16)) "")))))
  else String c "".

Fixpoint escape_all (s : string) : string :=
  match s with
  | EmptyString => EmptyString
  | String c rest => escape c +:+ escape_all rest
  end.

Definition quote (s : string) : string :=
  String dquote (escape_all s +:+ String dquote "").

Definition number_text (n : Z) : string :=
  NilZero.string_of_int (Z.to_int n).

Fixpoint stringify (v : value) : string :=
  match v with
  | JNull => "null"
  | JBool true => "true"
  | JBool false => "false"
  | JNumber n => number_text n
  | JString s => quote s
  | JArray items =>
      match items with
      | [] => "[]"
      | x :: more =>
          "[" +:+ stringify x +:+
          (fix tail (l : list value) : string :=
             match l with
             | [] => "]"
             | y :: l' => "," +:+ stringify y +:+ tail l'
             end) more
      end
  | JObject fields =>
      match fields with
      | [] => "{}"
      | (k, x) :: more =>
          "{" +:+ quote k +:+ ":" +:+ stringify x +:+
          (fix tail (l : list (string * value)) : string :=
             match l with
             | [] => "}"
             | (k', y) :: l' =>
                 "," +:+ quote k' +:+ ":" +:+ stringify y +:+ tail l'
             end) more
      end
  | JNonFinite _ => "null"
  end.

Definition is_ws (c : ascii) : bool :=
  let n := N_of_ascii c in
  ((n =? 32) || (n =? 9) || (n =? 10) || (n =? 13))%N.

Definition is_digit (c : ascii) : bool :=
  let n := N_of_ascii c in ((48 <=? n) && (n <=? 57))%N.

Fixpoint skip_ws (s : string) : string :=
  match s with
  | String c rest => if is_ws c then skip_ws rest else s
  | EmptyString => s
  end.

(** [expect lit s]: [s] without its prefix [lit]. *)
Fixpoint expect (lit s : string) : option string :=
  match lit, s with
  | EmptyString, _ => Some s
  | String a lit', String b s' =>
      if Ascii.eqb a b then expect lit' s' else None
  | _, _ => None
  end.

(** The characters of a string up to its closing quote. *)
Fixpoint chars (s : string) : option (string * string) :=
  match s with
  | EmptyString => None
  | String c rest =>
      if Ascii.eqb c dquote then Some (EmptyString, rest)
      else if Ascii.eqb c backslash then
        match rest with
        | String e rest' =>
            let plain (b : ascii) :=
              match chars rest' with
              | Some (body, r) => Some (String b body, r)
              | None => None
              end in
            if Ascii.eqb e dquote then plain dquote
            else if Ascii.eqb e backslash then plain backslash
            else if Ascii.eqb e "/" then plain "/"%char
            else if Ascii.eqb e "b" then plain (ascii_of_N 8)
            else if Ascii.eqb e "t" then plain (ascii_of_N 9)
            else if Ascii.eqb e "n" then plain (ascii_of_N 10)
            else if Ascii.eqb e "f" then plain (ascii_of_N 12)
            else if Ascii.eqb e "r" then plain (ascii_of_N 13)
            else if Ascii.eqb e "u" then
              match rest' with
              | String "0" (String "0" (String h (String l r0))) =>
                  match hex_value h, hex_value l, chars r0 with
                  | Some a, Some b, Some (body, r) =>
                      Some (String (ascii_of_N (16 * a + b)) body, r)
                  | _, _, _ => None
                  end
              | _ => None
              end
            else None
        | EmptyString => None
        end
      else if (N_of_ascii c <? 32)%N then None
      else
        match chars rest with
        | Some (body, r) => Some (String c body, r)
        | None => None
        end
  end.

(** The longest prefix of digits, and what follows it. *)
Fixpoint digits (s : string) : string * string :=
  match s with
  | String c rest =>
      if is_digit c
      then let (d, r) := digits rest in (String c d, r)
      else (EmptyString, s)
  | EmptyString => (EmptyString, s)
  end.

Definition starts_fraction (s : string) : bool :=
  match s with
  | String c _ => Ascii.eqb c "." || Ascii.eqb c "e" || Ascii.eqb c "E"
  | EmptyString => false
  end.

(** A natural number without superfluous leading zero. *)
Definition natural (s : string) : option (Z * string) :=
  let (d, r) := digits s in
  match d with
  | EmptyString => None
  | String "0" (String _ _) => None
  | _ =>
      if starts_fraction r then None
      else match NilZero.uint_of_string d with
           | Some u => Some (Z.of_uint u, r)
           | None => None
           end
  end.

Definition number (s : string) : option (Z * string) :=
  match s with
  | String "-" rest =>
      match natural rest with
      | Some (n, r) => Some (- n, r)
      | None => None
      end
  | _ => natural s
  end.

Fixpoint value_of (fuel : nat) (s : string) : option (value * string) :=
  match fuel with
  | O => None
  | S fuel' =>
      match skip_ws s with
      | EmptyString => None
      | String c rest as s' =>
          if Ascii.eqb c "n" then
            r ← expect "ull" rest; Some (JNull, r)
          else if Ascii.eqb c "t" then
            r ← expect "rue" rest; Some (JBool true, r)
          else if Ascii.eqb c "f" then
            r ← expect "alse" rest; Some (JBool false, r)
          else if Ascii.eqb c dquote then
            '(str, r) ← chars rest; Some (JString str, r)
          else if Ascii.eqb c "[" then
            match skip_ws rest with
            | String "]" r => Some (JArray [], r)
            | rest' =>
                '(items, r) ← elements fuel' rest'; Some (JArray items, r)
            end
          else if Ascii.eqb c "{" then
            match skip_ws rest with
            | String "}" r => Some (JObject [], r)
            | rest' =>
                '(fields, r) ← members fuel' rest'; Some (JObject fields, r)
            end
          else
            '(n, r) ← number s'; Some (JNumber n, r)
      end
  end
with elements (fuel : nat) (s : string) : option (list value * string) :=
  match fuel with
  | O => None
  | S fuel' =>
      '(x, r) ← value_of fuel' s;
      match skip_ws r with
      | String "," r' => '(more, r'') ← elements fuel' r'; Some (x :: more, r'')
      | String "]" r' => Some ([x], r')
      | _ => None
      end
  end
with members (fuel : nat) (s : string)
    : option (list (string * value) * string) :=
  match fuel with
  | O => None
  | S fuel' =>
      match skip_ws s with
      | String c rest =>
          if Ascii.eqb c dquote then
            '(k, r) ← chars rest;
            match skip_ws r with
            | String ":" r0 =>
                '(x, r1) ← value_of fuel' r0;
                match skip_ws r1 with
                | String "," r' =>
                    '(more, r'') ← members fuel' r'; Some ((k, x) :: more, r'')
                | String "}" r' => Some ([(k, x)], r')
                | _ => None
                end
            | _ => None
            end
          else None
      | EmptyString => None
      end
  end.

Definition parse_text (s : string) : option value :=
  '(v, r) ← value_of (2 * String.length s + 2) s;
  match skip_ws r with
  | EmptyString => Some v
  | _ => None
  end.

#[export] Instance json : JSON :=
  {| JSON_parse := parse_text; JSON_stringify := stringify |}.

(** What follows the first element of an array, and the first member of an
    object, in the text [stringify] writes. *)
Fixpoint array_tail (l : list value) : string :=
  match l with
  | [] => "]"
  | y :: l' => "," +:+ stringify y +:+ array_tail l'
  end.

Fixpoint object_tail (l : list (string * value)) : string :=
  match l with
  | [] => "}"
  | (k, y) :: l' => "," +:+ quote k +:+ ":" +:+ stringify y +:+ object_tail l'
  end.

(** The fuel [value_of] needs on the text of a value: its number of nodes. *)
Fixpoint size (v : value) : nat :=
  match v with
  | JArray items =>
      S ((fix sizes (l : list value) : nat :=
            match l with
            | [] => O
            | x :: l' => S (size x + sizes l')
            end) items)
  | JObject fields =>
      S ((fix sizes (l : list (string * value)) : nat :=
            match l with
            | [] => O
            | (_, x) :: l' => S (size x + sizes l')
            end) fields)
  | _ => 1%nat
  end.

Fixpoint sizes (l : list value) : nat :=
  match l with
  | [] => O
  | x :: l' => S (size x + sizes l')
  end.

Fixpoint member_sizes (l : list (string * value)) : nat :=
  match l with
  | [] => O
  | (_, x) :: l' => S (size x + member_sizes l')
  end.

(** The text after a value closes it: it is empty or starts with [,], [\]]
    or [}]. *)
Definition closes (s : string) : bool :=
  match s with
  | EmptyString => true
  | String c _ => Ascii.eqb c "," || Ascii.eqb c "]" || Ascii.eqb c "}"
  end.

(** The characters a written value can start with. *)
Definition starter (c : ascii) : bool :=
  is_digit c || Ascii.eqb c "-" || Ascii.eqb c "n" || Ascii.eqb c "t"
  || Ascii.eqb c "f" || Ascii.eqb c dquote || Ascii.eqb c "["
  || Ascii.eqb c "{".

(** [value_of] reads back what [stringify] wrote, whatever closes it. *)
Definition reads_back (v : value) : Prop :=
  forall (f : nat) (rest : string),
    (size v <= f)%nat -> closes rest = true ->
    value_of f (stringify v +:+ rest) = Some (v, rest).

End Reference.


(** ** Vocabulary of the properties *)

Section Vocabulary.
Context `{JSON}.

(** What [getCachedTheme] yields in a world: the parsed content of the
    cache slot, and [null] when the read is rejected, the slot is empty or
    holds the empty string, or its content does not parse. *)
Definition cached (w : World) : value :=
  match storage_faults w (clock w) with
  | Some _ => JNull
  | None =>
      match storage w !! THEME_CACHE_KEY with
      | Some s =>
          if String.eqb s "" then JNull
          else match JSON_parse s with
               | Some v => v
               | None => JNull
               end
      | None => JNull
      end
  end.

(** The ConfigCache holds [v]: its slot has a text that parses to [v]. *)
Definition cache_holds (w : World) (v : value) : Prop :=
  exists s, storage w !! THEME_CACHE_KEY = Some s
            /\ s <> "" /\ JSON_parse s = Some v.

(** The ConfigCache holds no record. *)
Definition cache_empty (w : World) : Prop :=
  storage w !! THEME_CACHE_KEY = None.

(** The world after the [setConfigSettings] of [initialize] is accepted. *)
Definition configured (w : World) : World :=
  called (EvSetConfigSettings 0 0)
    (with_remote {| rc_settings := Some (0, 0);
                    rc_defaults := rc_defaults (remote w);
                    rc_active := rc_active (remote w);
                    rc_backend := rc_backend (remote w) |} w).

(** The defaults [initialize] hands to [setDefaults]. *)
Definition seed (w : World) : gmap string string :=
  {[ THEME_CONFIG_KEY := JSON_stringify (cached (configured w)) ]}.

(** The world after an [initialize] that went through. *)
Definition seeded (w : World) : World :=
  let w2 := called (EvGetItem THEME_CACHE_KEY) (configured w) in
  with_initialized true
    (called (EvSetDefaults (seed w))
       (with_remote {| rc_settings := rc_settings (remote w2);
                       rc_defaults := seed w;
                       rc_active := rc_active (remote w2);
                       rc_backend := rc_backend (remote w2) |} w2)).

(** The world after [fetchAndActivate] is accepted, and the text
    [getValue(THEME_CONFIG_KEY).asString()] then yields. *)
Definition activated (w : World) : World :=
  called EvFetchAndActivate
    (with_remote {| rc_settings := rc_settings (remote w);
                    rc_defaults := rc_defaults (remote w);
                    rc_active := rc_backend (remote w);
                    rc_backend := rc_backend (remote w) |} w).

Definition served (w : World) : string :=
  getValue_asString THEME_CONFIG_KEY (remote (activated w)).

(** The world after [cacheTheme v]. *)
Definition written (v : value) (w : World) : World :=
  called (EvSetItem THEME_CACHE_KEY (JSON_stringify v))
    match storage_faults w (clock w) with
    | Some _ => w
    | None =>
        with_storage
          (<[THEME_CACHE_KEY := JSON_stringify v]> (storage w)) w
    end.

(** The codec loses nothing of [v]. *)
Definition round_trips (v : value) : Prop :=
  JSON_stringify v <> "" /\ JSON_parse (JSON_stringify v) = Some v.

(** What the codec makes of [v], as [getCachedTheme] takes it:
    [JSON.parse(JSON.stringify(v))], and [null] when the text is empty or
    does not parse. *)
Definition reparsed (v : value) : value :=
  if String.eqb (JSON_stringify v) "" then JNull
  else match JSON_parse (JSON_stringify v) with
       | Some u => u
       | None => JNull
       end.

(** The remote fetch path fails: the [try] of [fetchTheme] throws. *)
Definition remote_path_fails (w : World) : Prop :=
  exists e w1, run fetchTheme_try w = (inl e, w1).

(** The world [refreshTheme] calls [fetchTheme] in: after
    [setIsLoading(true)] and [setError(null)]. *)
Definition refreshing (w : World) : World :=
  with_provider {| theme := theme (provider w); isLoading := true;
                   error_message := None |} w.

(** Where a pending [initialize] can be suspended: at [setConfigSettings],
    at the [getItem] of [getCachedTheme], at [setDefaults] with the cached
    value it read, or nowhere, once it is over. *)
Inductive stage : Type :=
| AtConfig
| AtRead
| AtSeed (cachedTheme : value)
| Over.

Definition rethrow (error : exn) : prog unit := Throw error.

Definition pending (s : stage) : prog unit :=
  match s with
  | AtConfig => try_catch initialize_try rethrow
  | AtRead =>
      try_catch
        (cachedTheme <- getCachedTheme ;;
         call (SetDefaults
                 {[ THEME_CONFIG_KEY := JSON_stringify cachedTheme ]}) ;;
         call (SetInitialized true))
        rethrow
  | AtSeed cachedTheme =>
      try_catch
        (call (SetDefaults
                 {[ THEME_CONFIG_KEY := JSON_stringify cachedTheme ]}) ;;
         call (SetInitialized true))
        rethrow
  | Over => Ret tt
  end.

Definition next_stage (s : stage) (w : World) : stage :=
  match s with
  | AtConfig => AtRead
  | AtRead => AtSeed (cached w)
  | AtSeed _ => Over
  | Over => Over
  end.

Definition is_over (s : stage) : bool :=
  match s with
  | Over => true
  | _ => false
  end.

Definition overs (l : list stage) : nat :=
  length (List.filter is_over l).

(** The world after the awaited call of a pending [initialize] at stage
    [s] is accepted. *)
Definition stepped (s : stage) (w : World) : World :=
  match s with
  | AtConfig => configured w
  | AtRead => called (EvGetItem THEME_CACHE_KEY) w
  | AtSeed cachedTheme =>
      let d := {[ THEME_CONFIG_KEY := JSON_stringify cachedTheme ]} in
      with_initialized true
        (called (EvSetDefaults d)
           (with_remote {| rc_settings := rc_settings (remote w);
                           rc_defaults := d;
                           rc_active := rc_active (remote w);
                           rc_backend := rc_backend (remote w) |} w))
  | Over => w
  end.

End Vocabulary.

(** No call to AsyncStorage, or to Remote Config, is ever rejected. *)
Definition storage_up (w : World) : Prop :=
  forall t, storage_faults w t = None.

Definition remote_up (w : World) : Prop :=
  forall t, rc_faults w t = None.

(** ** Worlds to compute in *)

Definition no_faults : nat -> option exn := fun _ => None.

Definition unreachable : nat -> option exn :=
  fun _ => Some (Error "network request failed").

Definition rejected_at (t : nat) : nat -> option exn :=
  fun t' => if Nat.eqb t' t then Some (Error "network request failed")
            else None.

(** A process that has just started: nothing initialized, nothing activated,
    the provider as mounted. *)
Definition boot (cache backend : gmap string string)
    (faults : nat -> option exn) : World :=
  {| initialized := false;
     storage := cache;
     remote := {| rc_settings := None; rc_defaults := ∅; rc_active := ∅;
                  rc_backend := backend |};
     provider := mounted;
     clock := 0;
     rc_faults := faults;
     storage_faults := no_faults;
     trace := [] |}.

(** A theme other than the default one. *)
Definition night : Theme := {|
  colors := {|
    primary := "#3F51B5"; secondary := "#FF4081"; background := "#101014";
    surface := "#1C1C1E"; text := "#F0F2F5"; textSecondary := "#757575";
    error := "#D32F2F"; success := "#388E3C"; warning := "#FBC02D"
  |};
  typography := typography DEFAULT_THEME;
  spacing := spacing DEFAULT_THEME
|}.

Definition night_text : string :=
  Reference.stringify (theme_value night).

Definition cache_of (s : string) : gmap string string :=
  {[ THEME_CACHE_KEY := s ]}.

Definition backend_of (s : string) : gmap string string :=
  {[ THEME_CONFIG_KEY := s ]}.

(** A document that parses but is no theme: most of the schema is missing. *)
Definition partial_theme : value :=
  JObject [("colors", JObject [("primary", JString "#3F51B5")])].

Definition partial_text : string := Reference.stringify partial_theme.

Definition malformed_text : string := "{oops".



(** ** [src/components/ThemedButton.tsx] and [App.tsx]

    What the components compute from the theme: the style objects and the
    tree of elements they return.  The [onPress] handlers and the
    [activeOpacity] of the button are left out of the elements. *)

Definition TypeError : exn := Error "TypeError".

(** [o.k] on what an expression evaluated to, [None] standing for
    [undefined]: reading a property of [undefined] or [null] throws, an
    object yields its field, and the other values have none of the
    properties read here ([colors], [spacing], [typography] and the names
    below them). *)
Definition member (k : string) (o : option value) : exn + option value :=
  match o with
  | None | Some JNull => inl TypeError
  | Some v => inr (get k v)
  end.

(** [e.k] for an expression [e] that may itself have thrown. *)
Definition dot (e : exn + option value) (k : string) : exn + option value :=
  match e with
  | inl err => inl err
  | inr o => member k o
  end.

Definition and_then {A B} (r : exn + A) (f : A -> exn + B) : exn + B :=
  match r with
  | inl err => inl err
  | inr a => f a
  end.

Notation "'read' x ':=' r 'in' k" := (and_then r (fun x => k))
  (at level 10, x name, r at level 100, k at level 200).

(** A style object: its fields in order, [None] for a field that evaluated
    to [undefined]. *)
Definition style_object : Type := list (string * option value).

(** The elements the components return.  A [style] prop is an array of
    style objects, with [None] for an [undefined] entry. *)
#[warnings="-register-all"]
Inductive element : Type :=
| View (style : list (option style_object)) (children : list element)
| Text (style : list (option style_object)) (content : string)
| StatusBar (barStyle : string)
| TouchableOpacity (style : list (option style_object))
    (children : list element).

Record ThemedButtonProps : Type := {
  title : string;
  variant : option string;
  style : option style_object;
  textStyle : option style_object
}.

(** [export const ThemedButton: React.FC<ThemedButtonProps>], given the
    [theme] of [useTheme()]. *)
Definition ThemedButton (theme : value) (props : ThemedButtonProps)
    : exn + element :=
  let variant := default "primary" (variant props) in
  read backgroundColor :=
    (if String.eqb variant "primary"
     then dot (dot (inr (Some theme)) "colors") "primary"
     else dot (dot (inr (Some theme)) "colors") "secondary") in
  read padding := dot (dot (inr (Some theme)) "spacing") "md" in
  read borderRadius := dot (dot (inr (Some theme)) "spacing") "sm" in
  let buttonStyle : style_object :=
    [("backgroundColor", backgroundColor);
     ("padding", padding);
     ("borderRadius", borderRadius);
     ("alignItems", Some (JString "center"));
     ("justifyContent", Some (JString "center"))] in
  read color := dot (dot (inr (Some theme)) "colors") "background" in
  read fontSize :=
    dot (dot (dot (inr (Some theme)) "typography") "fontSize") "medium" in
  read fontWeight :=
    dot (dot (dot (inr (Some theme)) "typography") "fontWeight") "medium" in
  let textStyleObj : style_object :=
    [("color", color); ("fontSize", fontSize); ("fontWeight", fontWeight)] in
  inr (TouchableOpacity [Some buttonStyle; style props]
         [Text [Some textStyleObj; textStyle props] (title props)]).

(** [const styles = StyleSheet.create({ ... })] of [App.tsx]. *)
Module styles.
Definition container : style_object :=
  [("flex", Some (JNumber 1));
   ("alignItems", Some (JString "center"));
   ("justifyContent", Some (JString "center"))].
Definition title : style_object :=
  [("fontSize", Some (JNumber 24));
   ("fontWeight", Some (JString "bold"));
   ("marginBottom", Some (JNumber 32))].
Definition buttonContainer : style_object :=
  [("width", Some (JString "80%"))].
Definition secondaryButton : style_object :=
  [("marginTop", Some (JNumber 16))].
End styles.

(** [function AppContent()], given the context value of [useTheme()] and
    what [useColorScheme()] returns.  The buttons are rendered in place, as
    React does when it renders the tree. *)
Definition AppContent (ctx : Provider) (colorScheme : option string)
    : exn + element :=
  let isDarkMode :=
    match colorScheme with
    | Some s => String.eqb s "dark"
    | None => false
    end in
  if isLoading ctx then
    read backgroundColor :=
      dot (dot (inr (Some (theme ctx))) "colors") "background" in
    read color := dot (dot (inr (Some (theme ctx))) "colors") "text" in
    inr (View [Some styles.container;
               Some [("backgroundColor", backgroundColor)]]
           [Text [Some [("color", color)]] "Loading theme..."])
  else if truthy (from_option JString JNull (error_message ctx)) then
    read backgroundColor :=
      dot (dot (inr (Some (theme ctx))) "colors") "background" in
    read color := dot (dot (inr (Some (theme ctx))) "colors") "error" in
    read retry :=
      ThemedButton (theme ctx)
        {| title := "Retry"; variant := None; style := None;
           textStyle := None |} in
    inr (View [Some styles.container;
               Some [("backgroundColor", backgroundColor)]]
           [Text [Some [("color", color)]]
              ("Error: " +:+ default "" (error_message ctx));
            retry])
  else
    read backgroundColor :=
      dot (dot (inr (Some (theme ctx))) "colors") "background" in
    read color := dot (dot (inr (Some (theme ctx))) "colors") "text" in
    read refresh :=
      ThemedButton (theme ctx)
        {| title := "Refresh Theme"; variant := Some "primary";
           style := None; textStyle := None |} in
    read secondary :=
      ThemedButton (theme ctx)
        {| title := "Secondary Action"; variant := Some "secondary";
           style := Some styles.secondaryButton; textStyle := None |} in
    inr (View [Some styles.container;
               Some [("backgroundColor", backgroundColor)]]
           [StatusBar (if isDarkMode then "light-content" else "dark-content");
            Text [Some styles.title; Some [("color", color)]]
              "Dynamic Theme Demo";
            View [Some styles.buttonContainer] [refresh; secondary]]).

(** ** Vocabulary of the further properties *)

(** [v.k] is neither [undefined] nor [null]: its own properties can be
    read. *)
Definition readable (k : string) (v : value) : bool :=
  match get k v with
  | None | Some JNull => false
  | Some _ => true
  end.

(** [v.k] where it is an object or another value, [null] else. *)
Definition sub (k : string) (v : value) : value :=
  default JNull (get k v).

Definition is_null (v : value) : bool :=
  match v with
  | JNull => true
  | _ => false
  end.

(** The theme has the three groups the components read into, and its
    typography the two it reads into. *)
Definition renderable (theme : value) : bool :=
  negb (is_null theme)
  && readable "colors" theme
  && readable "spacing" theme
  && readable "typography" theme
  && readable "fontSize" (sub "typography" theme)
  && readable "fontWeight" (sub "typography" theme).

(** [if (error)] on the [error] of the context. *)
Definition shows_error (ctx : Provider) : bool :=
  truthy (from_option JString JNull (error_message ctx)).

(** The three screens of [AppContent], told apart by what the outer view
    holds. *)
Definition is_main_screen (e : element) : bool :=
  match e with
  | View _ (StatusBar _ :: _) => true
  | _ => false
  end.

Definition is_error_screen (e : element) : bool :=
  match e with
  | View _ [Text _ _; TouchableOpacity _ _] => true
  | _ => false
  end.

Definition is_loading_screen (e : element) : bool :=
  match e with
  | View _ [Text _ _] => true
  | _ => false
  end.

(** Every call to AsyncStorage is rejected. *)
Definition storage_down (w : World) : Prop :=
  forall t, storage_faults w t <> None.

Definition disk_failure : nat -> option exn :=
  fun _ => Some (Error "disk unavailable").

(** Remote Config accepts the calls made before time [t] and rejects the
    later ones. *)
Definition rejected_from (t : nat) : nat -> option exn :=
  fun t' => if Nat.ltb t' t then None
            else Some (Error "network request failed").

(** A running process in any state of its stores and faults. *)
Definition world_of (init : bool) (cache backend : gmap string string)
    (rc_fault storage_fault : nat -> option exn) : World :=
  {| initialized := init;
     storage := cache;
     remote := {| rc_settings := None; rc_defaults := ∅; rc_active := ∅;
                  rc_backend := backend |};
     provider := mounted;
     clock := 0;
     rc_faults := rc_fault;
     storage_faults := storage_fault;
     trace := [] |}.

(** AsyncStorage rejects the call made at time [t] and accepts the
    others. *)
Definition disk_full_at (t : nat) : nat -> option exn :=
  fun t' => if Nat.eqb t' t then Some (Error "disk full") else None.

(** The default theme with [x] for its small font size. *)
Definition small_font_size (x : value) : value :=
  JObject
    [("colors", colors_value (colors DEFAULT_THEME));
     ("typography",
      JObject [("fontFamily", JString "System");
               ("fontSize",
                JObject [("small", x); ("medium", JNumber 16);
                         ("large", JNumber 20); ("xlarge", JNumber 24)]);
               ("fontWeight",
                JObject [("regular", JString "400");
                         ("medium", JString "500");
                         ("bold", JString "700")])]);
     ("spacing", spacing_value (spacing DEFAULT_THEME))].

(** A theme whose small font size is [Infinity]: a [number] for
    [types.ts], and positive. *)
Definition overflowing : value := small_font_size (JNonFinite Infinity).

(** * Properties *)

Section Interpreter.

Lemma run_bind {A B} (p : prog A) (f : A -> prog B) (w : World) :
  run (x <- p ;; f x) w =
  match run p w with
  | (inr a, w') => run (f a) w'
  | (inl e, w') => (inl e, w')
  end.
Proof.
  revert w. induction p as [a | e | X o k IH]; intros w; cbn; try reflexivity.
  destruct (exec o w) as [r w']. apply IH.
Qed.

Lemma run_try_catch {A} (p : prog A) (h : exn -> prog A) (w : World) :
  run (try_catch p h) w =
  match run p w with
  | (inr a, w') => (inr a, w')
  | (inl e, w') => run (h e) w'
  end.
Proof.
  revert w. induction p as [a | e | X o k IH]; intros w; cbn; try reflexivity.
  destruct (exec o w) as [r w']. apply IH.
Qed.

Lemma run_finally {A} (p : prog A) (q : prog unit) (w : World) :
  run (finally p q) w =
  match run p w with
  | (r, w') =>
      match run q w' with
      | (inr _, w'') => (r, w'')
      | (inl e, w'') => (inl e, w'')
      end
  end.
Proof.
  revert w. induction p as [a | e | X o k IH]; intros w; cbn.
  - rewrite run_bind. destruct (run q w) as [[e | u] w']; reflexivity.
  - rewrite run_bind. destruct (run q w) as [[e' | u] w']; reflexivity.
  - destruct (exec o w) as [r w']. apply IH.
Qed.

(** No operation touches the schedule of faults. *)
Lemma exec_faults {X} (o : op X) (w : World) :
  rc_faults (exec o w).2 = rc_faults w
  /\ storage_faults (exec o w).2 = storage_faults w.
Proof.
  destruct o; cbn; unfold settle_call;
    repeat match goal with
           | |- context [match ?x with _ => _ end] => destruct x
           end; cbn; auto.
Qed.

Lemma run_faults {A} (p : prog A) (w : World) :
  rc_faults (run p w).2 = rc_faults w
  /\ storage_faults (run p w).2 = storage_faults w.
Proof.
  revert w. induction p as [a | e | X o k IH]; intros w; cbn; auto.
  destruct (exec o w) as [r w'] eqn:E.
  destruct (IH r w') as [-> ->].
  pose proof (exec_faults o w) as F. rewrite E in F. exact F.
Qed.

Lemma run_call {X} (o : op X) (w : World) : run (call o) w = exec o w.
Proof. cbn. destruct (exec o w) as [[e | x] w']; reflexivity. Qed.

(** Running a call to its first [await], or resuming it at one, does not
    change what it comes to when it is run to completion. *)
Lemma run_advance {A} (p : prog A) (w : World) :
  run (advance p w).1 (advance p w).2 = run p w.
Proof.
  revert w. induction p as [a | e | X o k IH]; intros w; cbn; try reflexivity.
  destruct (is_async o); [reflexivity |].
  destruct (exec o w) as [r w']. apply IH.
Qed.

Lemma run_resume {A} (p : prog A) (w : World) :
  run (resume p w).1 (resume p w).2 = run p w.
Proof.
  destruct p as [a | e | X o k]; cbn; try reflexivity.
  destruct (exec o w) as [r w']. apply run_advance.
Qed.

End Interpreter.

Section Service.
Context `{JSON}.

#[local] Arguments run : simpl never.
#[local] Arguments bind : simpl never.
#[local] Arguments try_catch : simpl never.
#[local] Arguments finally : simpl never.
#[local] Arguments call : simpl never.

Lemma run_parse (s : string) (w : World) :
  run (parse s) w
  = (match JSON_parse s with Some v => inr v | None => inl SyntaxError end, w).
Proof. unfold parse. destruct (JSON_parse s); reflexivity. Qed.

Lemma run_getCachedTheme (w : World) :
  run getCachedTheme w
  = (inr (cached w), called (EvGetItem THEME_CACHE_KEY) w).
Proof.
  unfold getCachedTheme, cached.
  rewrite run_try_catch, run_bind, run_call. cbn. unfold settle_call.
  destruct (storage_faults w (clock w)); [reflexivity |].
  destruct (storage w !! THEME_CACHE_KEY) as [s |]; cbn; [| reflexivity].
  destruct (String.eqb s ""); cbn; [reflexivity |].
  rewrite run_parse. destruct (JSON_parse s); reflexivity.
Qed.

Lemma run_cacheTheme (v : value) (w : World) :
  run (cacheTheme v) w = (inr tt, written v w).
Proof.
  unfold cacheTheme, written. rewrite run_try_catch, run_call. cbn.
  unfold settle_call. destruct (storage_faults w (clock w)); reflexivity.
Qed.

Lemma run_initialize (w : World) :
  run initialize w =
  if initialized w then (inr tt, w)
  else match rc_faults w (clock w) with
       | Some e => (inl e, called (EvSetConfigSettings 0 0) w)
       | None =>
           match rc_faults w (S (S (clock w))) with
           | Some e =>
               (inl e,
                called (EvSetDefaults (seed w))
                  (called (EvGetItem THEME_CACHE_KEY) (configured w)))
           | None => (inr tt, seeded w)
           end
       end.
Proof.
  unfold initialize. rewrite run_bind, run_call. cbn.
  destruct (initialized w); [reflexivity |].
  unfold initialize_try.
  rewrite run_try_catch, run_bind, run_call. cbn. unfold settle_call.
  destruct (rc_faults w (clock w)); [reflexivity |].
  rewrite run_bind, run_getCachedTheme, run_bind, run_call. cbn.
  unfold settle_call.
  destruct (rc_faults w (S (S (clock w)))); [reflexivity |].
  rewrite run_call. reflexivity.
Qed.

Lemma run_fetchTheme_try (w : World) :
  run fetchTheme_try w =
  match run initialize w with
  | (inl e, w1) => (inl e, w1)
  | (inr _, w1) =>
      match rc_faults w1 (clock w1) with
      | Some e => (inl e, called EvFetchAndActivate w1)
      | None =>
          match JSON_parse (served w1) with
          | Some v => (inr v, written v (activated w1))
          | None => (inl SyntaxError, activated w1)
          end
      end
  end.
Proof.
  unfold fetchTheme_try. rewrite run_bind.
  destruct (run initialize w) as [[e | []] w1]; [reflexivity |].
  rewrite run_bind, run_call. cbn. unfold settle_call.
  destruct (rc_faults w1 (clock w1)); [reflexivity |].
  rewrite run_bind, run_call. cbn.
  rewrite run_bind, run_parse. fold (activated w1).
  change (getValue_asString _ _) with (served w1).
  destruct (JSON_parse (served w1)); [| reflexivity].
  rewrite run_bind, run_cacheTheme. reflexivity.
Qed.

Lemma run_fetchTheme (w : World) :
  run fetchTheme w =
  match run fetchTheme_try w with
  | (inr v, w') => (inr v, w')
  | (inl _, w1) => (inr (cached w1), called (EvGetItem THEME_CACHE_KEY) w1)
  end.
Proof.
  unfold fetchTheme. rewrite run_try_catch.
  destruct (run fetchTheme_try w) as [[e | v] w1]; [| reflexivity].
  rewrite run_bind, run_getCachedTheme. reflexivity.
Qed.

(** What a failed initialization leaves behind. *)
Lemma initialize_failure (w w1 : World) (e : exn) :
  run initialize w = (inl e, w1) ->
  initialized w = false /\ initialized w1 = false
  /\ storage w1 = storage w /\ cache_writes w1 = cache_writes w
  /\ rc_faults w1 = rc_faults w /\ storage_faults w1 = storage_faults w
  /\ provider w1 = provider w /\ (clock w <= clock w1)%nat
  /\ exists evs, trace w1 = evs ++ EvSetConfigSettings 0 0 :: trace w.
Proof.
  rewrite run_initialize. destruct (initialized w) eqn:I; [discriminate |].
  destruct (rc_faults w (clock w)).
  - intros [= <- <-]. cbn. split_and!; try done; try lia.
    by exists (@nil event).
  - destruct (rc_faults w (S (S (clock w)))); [| discriminate].
    intros [= <- <-]. cbn. split_and!; try done; try lia.
    by exists (EvSetDefaults (seed w) :: EvGetItem THEME_CACHE_KEY :: nil).
Qed.

(** What a successful initialization leaves alone. *)
Lemma initialize_success (w w1 : World) :
  run initialize w = (inr tt, w1) ->
  initialized w1 = true
  /\ storage w1 = storage w /\ cache_writes w1 = cache_writes w
  /\ rc_faults w1 = rc_faults w /\ storage_faults w1 = storage_faults w
  /\ provider w1 = provider w
  /\ rc_backend (remote w1) = rc_backend (remote w).
Proof.
  rewrite run_initialize. destruct (initialized w) eqn:I.
  - intros [= <-]. auto 10.
  - destruct (rc_faults w (clock w)); [discriminate |].
    destruct (rc_faults w (S (S (clock w)))); [discriminate |].
    intros [= <-]. cbn. auto 10.
Qed.

(** The failure path of [fetchTheme] writes nothing. *)
Lemma fetchTheme_try_failure (w w1 : World) (e : exn) :
  run fetchTheme_try w = (inl e, w1) ->
  storage w1 = storage w /\ cache_writes w1 = cache_writes w
  /\ storage_faults w1 = storage_faults w /\ provider w1 = provider w.
Proof.
  rewrite run_fetchTheme_try.
  destruct (run initialize w) as [[e0 | []] w0] eqn:I.
  - intros [= <- <-]. apply initialize_failure in I. tauto.
  - apply initialize_success in I.
    destruct I as (_ & S & C & _ & F & P & _).
    destruct (rc_faults w0 (clock w0)).
    + intros [= <- <-]. cbn. auto.
    + destruct (JSON_parse (served w0)); [discriminate |].
      intros [= <- <-]. cbn. auto.
Qed.

Lemma cached_of_holds (w w1 : World) (v : value) :
  cache_holds w v -> storage_up w ->
  storage w1 = storage w -> storage_faults w1 = storage_faults w ->
  cached w1 = v.
Proof.
  intros (s & L & N & P) U S F. unfold cached.
  rewrite F, U, S, L.
  destruct (String.eqb_spec s ""); [contradiction |].
  by rewrite P.
Qed.

Lemma cached_of_empty (w w1 : World) :
  cache_empty w -> storage w1 = storage w -> cached w1 = JNull.
Proof.
  intros E S. unfold cached. rewrite S, E.
  by destruct (storage_faults w1 (clock w1)).
Qed.

(** An unparseable payload at the backend makes the remote path fail. *)
Lemma malformed_payload_fails (w : World) (raw : string) :
  rc_backend (remote w) !! THEME_CONFIG_KEY = Some raw ->
  JSON_parse raw = None ->
  remote_path_fails w.
Proof.
  intros B P. unfold remote_path_fails. rewrite run_fetchTheme_try.
  destruct (run initialize w) as [[e0 | []] w0] eqn:I; [eauto |].
  apply initialize_success in I. destruct I as (_ & _ & _ & _ & _ & _ & K).
  destruct (rc_faults w0 (clock w0)); [eauto |].
  assert (served w0 = raw) as ->.
  { unfold served, getValue_asString. cbn. by rewrite K, B. }
  rewrite P. eauto.
Qed.

(** [initialize] fails exactly when it was not initialized and the call of
    [setConfigSettings], or then that of [setDefaults], is rejected. *)
Lemma initialize_rejects_iff (w : World) (e : exn) :
  (exists w1, run initialize w = (inl e, w1))
  <-> initialized w = false
      /\ (rc_faults w (clock w) = Some e
          \/ rc_faults w (clock w) = None
             /\ rc_faults w (S (S (clock w))) = Some e).
Proof.
  rewrite run_initialize. destruct (initialized w).
  - split; [intros (w1 & [=]) | intros ([=] & _)].
  - destruct (rc_faults w (clock w)) as [e0 |].
    + split.
      * intros (w1 & [= -> _]). auto.
      * intros (_ & [[= ->] | ([=] & _)]). eauto.
    + destruct (rc_faults w (S (S (clock w)))) as [e0 |].
      * split.
        -- intros (w1 & [= -> _]). auto.
        -- intros (_ & [[=] | (_ & [= ->])]). eauto.
      * split; [intros (w1 & [=]) | intros (_ & [[=] | (_ & [=])])].
Qed.

(** Once initialized, [initialize] does nothing. *)
Lemma initialize_idempotent (w : World) :
  initialized w = true -> run initialize w = (inr tt, w).
Proof. intros I. by rewrite run_initialize, I. Qed.

(** The remote path fails exactly when [initialize] fails, or
    [fetchAndActivate] is rejected, or the text served does not parse. *)
Lemma remote_path_fails_iff (w : World) :
  remote_path_fails w
  <-> (exists e w0, run initialize w = (inl e, w0))
      \/ exists w0,
           run initialize w = (inr tt, w0)
           /\ (rc_faults w0 (clock w0) <> None
               \/ JSON_parse (served w0) = None).
Proof.
  unfold remote_path_fails. rewrite run_fetchTheme_try.
  destruct (run initialize w) as [[e0 | []] w0].
  - split; eauto.
  - destruct (rc_faults w0 (clock w0)) as [e0 |] eqn:R.
    + split; [intros _ | eauto]. right. exists w0.
      split; [done |]. left. by rewrite R.
    + destruct (JSON_parse (served w0)) as [v |] eqn:P.
      * split; [intros (e & w1 & [=]) |].
        intros [(e & w1 & [=]) | (w1 & [= <-] & [N | N])]; congruence.
      * split; [intros _ | eauto]. right. exists w0.
        split; [done |]. by right.
Qed.

(** C1 (as amended).  In every state of Remote Config, of the cache and of
    the service, [fetchTheme] never throws or rejects outward: it resolves to
    a value, which is what the remote path parsed or, when that path failed,
    what [getCachedTheme] yields (the cached value or [null]).  Nothing
    makes that value a structurally valid theme. *)
Theorem fetchTheme_never_rejects (w : World) :
  exists v w',
    run fetchTheme w = (inr v, w')
    /\ (run fetchTheme_try w = (inr v, w')
        \/ exists e w1, run fetchTheme_try w = (inl e, w1) /\ v = cached w1).
Proof.
  rewrite run_fetchTheme.
  destruct (run fetchTheme_try w) as [[e | v] w1]; eauto 10.
Qed.

(** C2 (as amended).  If the remote fetch path fails and the cache holds no
    record, [fetchTheme] resolves to [null], and the cache is left as it
    was.  The service does not fall back to [DEFAULT_THEME]. *)
Theorem fetchTheme_failure_empty_cache (w : World) :
  remote_path_fails w -> cache_empty w ->
  exists w', run fetchTheme w = (inr JNull, w') /\ storage w' = storage w.
Proof.
  intros (e & w1 & F) E. rewrite run_fetchTheme, F.
  apply fetchTheme_try_failure in F. destruct F as (S & _).
  rewrite (cached_of_empty w w1 E S). eauto.
Qed.

(** C5.  If the remote fetch path fails and the cache holds a theme [C],
    [fetchTheme] resolves to [C]. *)
Theorem fetchTheme_failure_serves_cache (w : World) (C : value) :
  remote_path_fails w -> cache_holds w C -> storage_up w ->
  exists w', run fetchTheme w = (inr C, w') /\ storage w' = storage w.
Proof.
  intros (e & w1 & F) Hc U. rewrite run_fetchTheme, F.
  apply fetchTheme_try_failure in F. destruct F as (S & _ & SF & _).
  rewrite (cached_of_holds w w1 C Hc U S SF). eauto.
Qed.

(** C7.  If the cache holds a theme [A] and Remote Config delivers a text
    that is not parseable JSON, [fetchTheme] resolves to [A] and the cache
    is unchanged: the failure path makes no write. *)
Theorem fetchTheme_malformed_payload (w : World) (raw : string) (A : value) :
  rc_backend (remote w) !! THEME_CONFIG_KEY = Some raw ->
  JSON_parse raw = None ->
  cache_holds w A -> storage_up w ->
  exists w',
    run fetchTheme w = (inr A, w')
    /\ storage w' = storage w /\ cache_writes w' = cache_writes w.
Proof.
  intros B P Hc U.
  destruct (malformed_payload_fails w raw B P) as (e & w1 & F).
  rewrite run_fetchTheme, F.
  apply fetchTheme_try_failure in F. destruct F as (S & W & SF & _).
  rewrite (cached_of_holds w w1 A Hc U S SF). eauto.
Qed.

Lemma initialize_remote_up (w : World) :
  remote_up w ->
  run initialize w = (inr tt, if initialized w then w else seeded w).
Proof.
  intros U. rewrite run_initialize, !U. by destruct (initialized w).
Qed.

Lemma written_frame (v : value) (w : World) :
  provider (written v w) = provider w
  /\ rc_faults (written v w) = rc_faults w
  /\ storage_faults (written v w) = storage_faults w.
Proof. unfold written. by destruct (storage_faults w (clock w)). Qed.

Lemma fetchTheme_try_success (w w' : World) (v : value) :
  run fetchTheme_try w = (inr v, w') ->
  provider w' = provider w
  /\ hd_error (trace w') = Some (EvSetItem THEME_CACHE_KEY (JSON_stringify v))
  /\ (storage_up w ->
      storage w' = <[THEME_CACHE_KEY := JSON_stringify v]> (storage w)).
Proof.
  rewrite run_fetchTheme_try.
  destruct (run initialize w) as [[e0 | []] w0] eqn:I; [discriminate |].
  apply initialize_success in I.
  destruct I as (_ & S & _ & _ & F & P & _).
  destruct (rc_faults w0 (clock w0)); [discriminate |].
  destruct (JSON_parse (served w0)) as [u |]; [| discriminate].
  intros [= -> <-]. split_and!; [| done |].
  - by destruct (written_frame v (activated w0)) as (-> & _).
  - intros U. unfold written. cbn. by rewrite F, U, S.
Qed.

Lemma fetchTheme_provider (w w' : World) (r : exn + value) :
  run fetchTheme w = (r, w') -> provider w' = provider w.
Proof.
  rewrite run_fetchTheme.
  destruct (run fetchTheme_try w) as [[e | v] w1] eqn:T; intros [= <- <-].
  - apply fetchTheme_try_failure in T. cbn. tauto.
  - apply fetchTheme_try_success in T. tauto.
Qed.

(** C3 (as amended).  For every raw text delivered by Remote Config, what
    is handled as a fetch failure is a text that [JSON.parse] rejects:
    nothing is then written to the cache.  Every text that parses is handed
    to [cacheTheme] and returned by [fetchTheme] as it is; no schema check
    stands in between. *)
Theorem fetchTheme_accepts_whatever_parses (w : World) (raw : string) :
  remote_up w ->
  rc_backend (remote w) !! THEME_CONFIG_KEY = Some raw ->
  (forall v, JSON_parse raw = Some v ->
     exists w',
       run fetchTheme w = (inr v, w')
       /\ hd_error (trace w')
          = Some (EvSetItem THEME_CACHE_KEY (JSON_stringify v))
       /\ (storage_up w ->
           storage w' !! THEME_CACHE_KEY = Some (JSON_stringify v)))
  /\ (JSON_parse raw = None ->
      remote_path_fails w
      /\ exists v w',
           run fetchTheme w = (inr v, w')
           /\ storage w' = storage w /\ cache_writes w' = cache_writes w).
Proof.
  intros U B. split.
  - intros v P.
    assert (run fetchTheme_try w
            = (inr v, written v (activated (if initialized w then w
                                            else seeded w)))) as T.
    { rewrite run_fetchTheme_try, (initialize_remote_up w U).
      set (w0 := if initialized w then w else seeded w).
      assert (rc_faults w0 = rc_faults w) as ->
        by (subst w0; by destruct (initialized w)).
      rewrite U.
      assert (served w0 = raw) as ->.
      { unfold served, getValue_asString. cbn.
        assert (rc_backend (remote w0) = rc_backend (remote w)) as ->
          by (subst w0; by destruct (initialized w)).
        by rewrite B. }
      by rewrite P. }
    rewrite run_fetchTheme, T. eexists. split; [reflexivity |].
    apply fetchTheme_try_success in T. destruct T as (_ & Hd & St).
    split; [exact Hd |]. intros SU. rewrite (St SU). apply lookup_insert_eq.
  - intros P. pose proof (malformed_payload_fails w raw B P) as Fl.
    split; [exact Fl |]. destruct Fl as (e & w1 & F).
    rewrite run_fetchTheme, F.
    apply fetchTheme_try_failure in F. destruct F as (S & W & _).
    eauto 10.
Qed.

(** C4 (as amended).  On a first, not yet initialized call that Remote
    Config accepts, [initialize] seeds the default of the theme key with
    [JSON.stringify] of the cached theme when the cache holds one, and with
    [JSON.stringify(null)] when the cache is empty. *)
Theorem initialize_seeds_cached_or_null (w : World) :
  initialized w = false -> remote_up w ->
  exists w',
    run initialize w = (inr tt, w')
    /\ initialized w' = true
    /\ (forall C, cache_holds w C -> storage_up w ->
          rc_defaults (remote w')
          = {[ THEME_CONFIG_KEY := JSON_stringify C ]})
    /\ (cache_empty w ->
          rc_defaults (remote w')
          = {[ THEME_CONFIG_KEY := JSON_stringify JNull ]}).
Proof.
  intros I U. rewrite (initialize_remote_up w U), I.
  exists (seeded w). split_and!; [done | done | |].
  - intros C Hc SU. cbn. unfold seed.
    by rewrite (cached_of_holds w (configured w) C Hc SU).
  - intros E. cbn. unfold seed.
    by rewrite (cached_of_empty w (configured w) E).
Qed.

(** What was just written is what the cache yields, on a store that accepts
    the write and the read and for a value the codec loses nothing of. *)
Lemma cached_written (v : value) (w : World) :
  storage_faults w (clock w) = None ->
  storage_faults w (S (clock w)) = None ->
  round_trips v ->
  cached (written v w) = v.
Proof.
  intros Uw Ur [N P].
  unfold cached, written. rewrite Uw. cbn. rewrite Ur, lookup_insert_eq.
  destruct (String.eqb_spec (JSON_stringify v) ""); [contradiction |].
  by rewrite P.
Qed.

(** The round trip of a typed theme: [cacheTheme T] followed at once by
    [getCachedTheme] yields [T] again, on a store that accepts the write and
    the read and a codec that loses nothing of [T]. *)
Theorem cache_round_trip (T : Theme) (w : World) :
  storage_faults w (clock w) = None ->
  storage_faults w (S (clock w)) = None ->
  round_trips (theme_value T) ->
  exists w',
    run (cacheTheme (theme_value T) ;; getCachedTheme) w
    = (inr (theme_value T), w').
Proof.
  intros Uw Ur L.
  rewrite run_bind, run_cacheTheme, run_getCachedTheme.
  rewrite (cached_written (theme_value T) w Uw Ur L).
  by eexists.
Qed.

(** C8.  If [initialize] fails, [initialized] was false and stays false,
    and a later call runs the whole setup again: it starts over at
    [setConfigSettings] and, once Remote Config accepts its calls, goes
    through the three steps and sets the flag. *)
Theorem initialize_failure_leaves_uninitialized (w w1 : World) (e : exn) :
  run initialize w = (inl e, w1) ->
  initialized w = false /\ initialized w1 = false
  /\ storage w1 = storage w
  /\ (exists r w2 evs,
        run initialize w1 = (r, w2)
        /\ trace w2 = evs ++ EvSetConfigSettings 0 0 :: trace w1)
  /\ ((forall t, (clock w1 <= t)%nat -> rc_faults w1 t = None) ->
      exists w2,
        run initialize w1 = (inr tt, w2)
        /\ initialized w2 = true
        /\ trace w2 = EvSetDefaults (seed w1) :: EvGetItem THEME_CACHE_KEY
                       :: EvSetConfigSettings 0 0 :: trace w1).
Proof.
  intros F. apply initialize_failure in F.
  destruct F as (I & I1 & St & _).
  split_and!; try done.
  - rewrite run_initialize, I1.
    destruct (rc_faults w1 (clock w1)).
    + by exists (inl e0), (called (EvSetConfigSettings 0 0) w1), (@nil event).
    + destruct (rc_faults w1 (S (S (clock w1)))).
      * eexists _, _, (_ :: _ :: nil). split; reflexivity.
      * eexists _, _, (_ :: _ :: nil). split; reflexivity.
  - intros U. rewrite run_initialize, I1, !U by lia.
    exists (seeded w1). done.
Qed.

Lemma run_refreshTheme (w : World) :
  run refreshTheme w =
  match run fetchTheme (refreshing w) with
  | (inr v, w1) =>
      (inr tt,
       with_provider
         {| theme := if truthy v then v else theme_value DEFAULT_THEME;
            isLoading := false;
            error_message := error_message (provider w1) |} w1)
  | (inl err, w1) =>
      (inr tt,
       with_provider
         {| theme := theme (provider w1);
            isLoading := false;
            error_message := Some (error_text err) |} w1)
  end.
Proof.
  unfold refreshTheme.
  rewrite run_finally, run_try_catch, run_bind, run_call. cbn.
  rewrite run_bind, run_call. cbn. rewrite run_bind.
  change (with_provider _ (with_provider _ w)) with (refreshing w).
  destruct (run fetchTheme (refreshing w)) as [[err | v] w1].
  - rewrite !run_call. reflexivity.
  - destruct (truthy v); rewrite !run_call; reflexivity.
Qed.

(** Since [fetchTheme] never rejects, [refreshTheme] always ends with
    [isLoading] false and [error] null. *)
Lemma refreshTheme_settles (w : World) :
  exists v w',
    run refreshTheme w = (inr tt, w')
    /\ provider w' = {| theme := if truthy v then v
                                 else theme_value DEFAULT_THEME;
                        isLoading := false;
                        error_message := None |}.
Proof.
  rewrite run_refreshTheme.
  destruct (run fetchTheme (refreshing w)) as [r w1] eqn:F.
  pose proof (fetchTheme_provider _ _ _ F) as P.
  rewrite run_fetchTheme in F.
  destruct (run fetchTheme_try (refreshing w)) as [[e | v] w2];
    injection F as <- <-; eexists _, _; (split; [reflexivity |]);
    cbn in *; by rewrite P.
Qed.

(** The [else] branch of [refreshTheme]: whenever [fetchTheme] resolves to
    [null] or another falsy value, [refreshTheme] makes [DEFAULT_THEME] the
    current theme and ends with [error] still [null] and [isLoading]
    false. *)
Theorem refreshTheme_falsy_uses_default (w w1 : World) (v : value) :
  run fetchTheme (refreshing w) = (inr v, w1) ->
  truthy v = false ->
  exists w',
    run refreshTheme w = (inr tt, w')
    /\ provider w' = {| theme := theme_value DEFAULT_THEME;
                        isLoading := false;
                        error_message := None |}.
Proof.
  intros F Tr. rewrite run_refreshTheme, F, Tr.
  apply fetchTheme_provider in F.
  eexists. split; [reflexivity |]. cbn. by rewrite F.
Qed.
End Service.

Section Concurrency.
Context `{JSON}.

Lemma invoke_initialize (w : World) :
  initialized w = false -> invoke initialize w = (pending AtConfig, w).
Proof. intros I. unfold invoke, initialize. cbn. rewrite I. reflexivity. Qed.

Lemma invoke_all_initialize (n : nat) (w : World) :
  initialized w = false ->
  invoke_all n initialize w = (pending <$> replicate n AtConfig, w).
Proof.
  intros I. induction n as [| n IH]; [reflexivity |].
  cbn [invoke_all]. rewrite (invoke_initialize w I), IH. reflexivity.
Qed.

Lemma resume_pending (s : stage) (w : World) :
  rc_faults w (clock w) = None ->
  resume (pending s) w = (pending (next_stage s w), stepped s w).
Proof.
  intros U. destruct s; cbn; unfold settle_call, cached.
  - rewrite U. reflexivity.
  - destruct (storage_faults w (clock w)); [reflexivity |].
    destruct (storage w !! THEME_CACHE_KEY) as [s |]; cbn; [| reflexivity].
    destruct (String.eqb s ""); cbn; [reflexivity |].
    unfold parse. destruct (JSON_parse s); reflexivity.
  - rewrite U. reflexivity.
  - reflexivity.
Qed.

Lemma stepped_frame (s : stage) (w : World) :
  rc_faults (stepped s w) = rc_faults w
  /\ seedings (stepped s w)
     = (seedings w + if is_over (next_stage s w) then
                       if is_over s then 0 else 1 else 0)%nat.
Proof. destruct s; cbn; split; try reflexivity; unfold seedings; cbn; lia. Qed.

Lemma overs_insert (l : list stage) (i : nat) (s s' : stage) :
  l !! i = Some s ->
  (overs (<[i := s']> l) + (if is_over s then 1 else 0)
   = overs l + (if is_over s' then 1 else 0))%nat.
Proof.
  revert i. induction l as [| x l IH]; intros i L; [done |].
  destruct i as [| i]; cbn in L.
  - injection L as ->. unfold overs. cbn.
    destruct (is_over s), (is_over s'); cbn; lia.
  - specialize (IH i L).
    change (<[S i := s']> (x :: l)) with (x :: <[i := s']> l).
    unfold overs in *. cbn [List.filter].
    destruct (is_over x); cbn [length]; lia.
Qed.

Lemma run_sched_pending (sched : list nat) :
  forall (stages : list stage) (w w' : World) (pool' : list (prog unit)),
    remote_up w ->
    run_sched sched (pending <$> stages) w = (pool', w') ->
    exists stages',
      pool' = pending <$> stages'
      /\ length stages' = length stages
      /\ (seedings w' + overs stages = seedings w + overs stages')%nat.
Proof.
  induction sched as [| i sched IH]; intros stages w w' pool' U R.
  - cbn in R. injection R as <- <-. by exists stages.
  - cbn [run_sched] in R. rewrite list_lookup_fmap in R.
    destruct (stages !! i) as [s |] eqn:L; cbn in R; [| by apply IH in R].
    rewrite (resume_pending s w (U _)) in R.
    rewrite <- list_fmap_insert in R.
    destruct (stepped_frame s w) as [F Sd].
    apply IH in R; [| intros t; rewrite F; apply U].
    destruct R as (stages' & -> & Len & Cnt).
    exists stages'. split_and!; [done | by rewrite Len, length_insert |].
    pose proof (overs_insert stages i s (next_stage s w) L) as O.
    rewrite Sd in Cnt. destruct s; cbn in *; lia.
Qed.

Lemma finished_pending (stages : list stage) :
  forallb finished (pending <$> stages) = true ->
  overs stages = length stages
  /\ forallb fulfilled (pending <$> stages) = true.
Proof.
  induction stages as [| s l IH]; [done |].
  cbn. destruct s; cbn; try discriminate.
  intros F. destruct (IH F) as [O Fu]. split; [| exact Fu].
  unfold overs in *. cbn. by f_equal.
Qed.

(** The calls can indeed all be taken to their end: one after the other,
    for one. *)
Lemma one_by_one_completes (m : nat) :
  forall (done : list stage) (w : World),
    remote_up w ->
    exists w',
      run_sched (one_by_one (length done) m)
        (pending <$> (done ++ replicate m AtConfig)) w
      = (pending <$> (done ++ replicate m Over), w').
Proof.
  induction m as [| m IH]; intros done w U; [by exists w |].
  cbn [one_by_one replicate run_sched].
  assert (forall (s s' : stage) (l : list stage),
            (pending <$> (done ++ s :: l)) !! length done = Some (pending s)
            /\ <[length done := pending s']> (pending <$> (done ++ s :: l))
               = pending <$> (done ++ s' :: l)) as K.
  { intros s s' l. rewrite list_lookup_fmap, list_lookup_middle by done.
    split; [done |]. rewrite <- list_fmap_insert. f_equal.
    rewrite insert_app_r_alt, Nat.sub_diag by lia. done. }
  destruct (K AtConfig AtRead (replicate m AtConfig)) as [-> E1].
  rewrite (resume_pending AtConfig w (U _)). cbn [next_stage]. rewrite E1.
  set (w1 := stepped AtConfig w).
  assert (remote_up w1) as U1 by (intros t; apply U).
  destruct (K AtRead (AtSeed (cached w1)) (replicate m AtConfig)) as [-> E2].
  rewrite (resume_pending AtRead w1 (U1 _)). cbn [next_stage]. rewrite E2.
  set (w2 := stepped AtRead w1).
  assert (remote_up w2) as U2 by (intros t; apply U).
  destruct (K (AtSeed (cached w1)) Over (replicate m AtConfig)) as [-> E3].
  rewrite (resume_pending (AtSeed (cached w1)) w2 (U2 _)).
  cbn [next_stage]. rewrite E3.
  set (w3 := stepped (AtSeed (cached w1)) w2).
  assert (remote_up w3) as U3 by (intros t; apply U).
  destruct (IH (done ++ [Over]) w3 U3) as (w' & R).
  rewrite length_app in R. cbn [length] in R.
  replace (length done + 1)%nat with (S (length done)) in R by lia.
  rewrite <- !app_assoc in R. cbn [app] in R.
  exists w'. exact R.
Qed.

Lemma initialize_calls_complete (n : nat) (w : World) :
  initialized w = false -> remote_up w ->
  exists sched pool' w',
    run_sched sched (invoke_all n initialize w).1 (invoke_all n initialize w).2
    = (pool', w')
    /\ forallb finished pool' = true.
Proof.
  intros I U. rewrite (invoke_all_initialize n w I). cbn [fst snd].
  destruct (one_by_one_completes n [] w U) as (w' & R).
  eexists _, _, _. split; [exact R |].
  clear. induction n as [| n IH]; [done |]. exact IH.
Qed.

(** C9 (as amended).  When [initialize] is invoked [n] times before any of
    the calls completes, every call has passed the [initialized] guard and
    seeds on its own: in whatever order the pending calls are resumed, once
    all are over every one has been fulfilled and [setDefaults] has been
    called [n] times.  No attempt in flight is shared. *)
Theorem concurrent_initialize_seeds_each
    (n : nat) (sched : list nat) (w w' : World) (pool' : list (prog unit)) :
  initialized w = false -> remote_up w ->
  run_sched sched (invoke_all n initialize w).1 (invoke_all n initialize w).2
  = (pool', w') ->
  forallb finished pool' = true ->
  seedings w' = (seedings w + n)%nat
  /\ forallb fulfilled pool' = true.
Proof.
  intros I U R F. rewrite (invoke_all_initialize n w I) in R. cbn in R.
  apply run_sched_pending in R; [| exact U].
  destruct R as (stages' & -> & Len & Cnt).
  apply finished_pending in F. destruct F as [F Fu]. split; [| exact Fu].
  rewrite length_replicate in Len.
  assert (overs (replicate n AtConfig) = 0%nat) as Z.
  { clear. induction n; [done |]. unfold overs in *. by cbn. }
  lia.
Qed.
End Concurrency.



Module ReferenceFacts.
Import Reference.

Lemma append_cons (x : ascii) (a b : string) :
  String x a +:+ b = String x (a +:+ b).
Proof. reflexivity. Qed.

Lemma append_assoc (a b c : string) : (a +:+ b) +:+ c = a +:+ (b +:+ c).
Proof.
  induction a as [| x a IH]; [reflexivity |].
  by rewrite !append_cons, IH.
Qed.

Lemma append_nil_r (a : string) : a +:+ "" = a.
Proof.
  induction a as [| x a IH]; [reflexivity |]. by rewrite append_cons, IH.
Qed.

Lemma length_append (a b : string) :
  String.length (a +:+ b) = (String.length a + String.length b)%nat.
Proof.
  induction a as [| x a IH]; [reflexivity |].
  rewrite append_cons. cbn. by rewrite IH.
Qed.

(** Strings *)

Lemma chars_escape (c : ascii) (t : string) :
  chars (escape c +:+ t)
  = match chars t with
    | Some (body, r) => Some (String c body, r)
    | None => None
    end.
Proof. destruct c as [[] [] [] [] [] [] [] []]; reflexivity. Qed.

Lemma chars_escape_all (s rest : string) :
  chars (escape_all s +:+ String dquote rest) = Some (s, rest).
Proof.
  induction s as [| c s IH]; [reflexivity |].
  cbn [escape_all]. by rewrite append_assoc, chars_escape, IH.
Qed.

Lemma quote_append (s rest : string) :
  quote s +:+ rest = String dquote (escape_all s +:+ String dquote rest).
Proof.
  unfold quote. by rewrite append_cons, append_assoc.
Qed.

(** Numbers *)

Lemma closes_stops (rest : string) :
  closes rest = true ->
  digits rest = (EmptyString, rest) /\ starts_fraction rest = false.
Proof.
  destruct rest as [| c rest]; [done |].
  destruct c as [[] [] [] [] [] [] [] []]; cbn; intros C;
    try discriminate C; done.
Qed.

Lemma digits_of_uint (d : Decimal.uint) (rest : string) :
  closes rest = true ->
  digits (NilEmpty.string_of_uint d +:+ rest)
  = (NilEmpty.string_of_uint d, rest).
Proof.
  intros C.
  induction d; cbn [NilEmpty.string_of_uint];
    rewrite ?append_cons; cbn; try (by rewrite IHd).
  by destruct (closes_stops rest C).
Qed.

Lemma to_uint_no_leading_zero (p : positive) (d : Decimal.uint) :
  Pos.to_uint p <> Decimal.D0 d.
Proof.
  intros E.
  pose proof (DecimalPos.Unsigned.to_of (Pos.to_uint p)) as N.
  rewrite DecimalPos.Unsigned.of_to in N. cbn in N.
  rewrite E, DecimalFacts.unorm_D0 in N.
  assert (d = Decimal.Nil \/ d <> Decimal.Nil) as [-> | NN]
    by (destruct d; auto; right; discriminate).
  - by apply (DecimalPos.Unsigned.to_uint_nonzero p).
  - pose proof (DecimalFacts.nb_digits_unorm d NN) as L.
    rewrite <- N in L. cbn in L. lia.
Qed.

Lemma natural_of_pos (p : positive) (rest : string) :
  closes rest = true ->
  natural (NilEmpty.string_of_uint (Pos.to_uint p) +:+ rest)
  = Some (Z.pos p, rest).
Proof.
  intros C. unfold natural. rewrite (digits_of_uint _ _ C).
  destruct (closes_stops rest C) as [_ ->].
  pose proof (DecimalPos.Unsigned.to_uint_nonnil p) as NN.
  pose proof (to_uint_no_leading_zero p) as NZ.
  pose proof (NilZero.usu (Pos.to_uint p) NN) as U.
  assert (Z.of_uint (Pos.to_uint p) = Z.pos p) as ZP.
  { unfold Z.of_uint. by rewrite DecimalPos.Unsigned.of_to. }
  assert (NilZero.string_of_uint (Pos.to_uint p)
          = NilEmpty.string_of_uint (Pos.to_uint p)) as SE
    by (by destruct (Pos.to_uint p)).
  rewrite SE in U.
  destruct (Pos.to_uint p) as [| d | d | d | d | d | d | d | d | d | d];
    try (by destruct (NZ d)); try done;
    cbn [NilEmpty.string_of_uint] in *; rewrite U, ZP; reflexivity.
Qed.

Lemma number_of_text (n : Z) (rest : string) :
  closes rest = true ->
  number (number_text n +:+ rest) = Some (n, rest).
Proof.
  intros C. destruct n as [| p | p].
  - change (number_text 0 +:+ rest) with (String "0" rest).
    unfold number, natural. cbn.
    destruct (closes_stops rest C) as [D F]. rewrite D.
    change (is_digit "0") with true. cbn. by rewrite F.
  - unfold number_text. cbn [Z.to_int NilZero.string_of_int].
    pose proof (natural_of_pos p rest C) as N.
    pose proof (DecimalPos.Unsigned.to_uint_nonnil p) as NN.
    assert (NilZero.string_of_uint (Pos.to_uint p)
            = NilEmpty.string_of_uint (Pos.to_uint p)) as ->
      by (by destruct (Pos.to_uint p)).
    unfold number.
    destruct (Pos.to_uint p) as [| d | d | d | d | d | d | d | d | d | d];
      [done | ..];
      cbn [NilEmpty.string_of_uint] in *; rewrite append_cons in *; exact N.
  - unfold number_text. cbn [Z.to_int NilZero.string_of_int].
    assert (NilZero.string_of_uint (Pos.to_uint p)
            = NilEmpty.string_of_uint (Pos.to_uint p)) as ->.
    { pose proof (DecimalPos.Unsigned.to_uint_nonnil p).
      by destruct (Pos.to_uint p). }
    rewrite append_cons. unfold number.
    by rewrite (natural_of_pos p rest C).
Qed.

(** Values *)

Lemma value_nested_ind (P : value -> Prop) :
  P JNull -> (forall b, P (JBool b)) -> (forall n, P (JNumber n)) ->
  (forall s, P (JString s)) ->
  (forall items, Forall P items -> P (JArray items)) ->
  (forall fields, Forall (fun kv => P kv.2) fields -> P (JObject fields)) ->
  (forall n, P (JNonFinite n)) ->
  forall v, P v.
Proof.
  intros HN HB HZ HS HA HO HF. fix IH 1.
  intros [| b | n | s | items | fields | n].
  - exact HN.
  - apply HB.
  - apply HZ.
  - apply HS.
  - apply HA. induction items as [| x l IHl]; constructor; [apply IH | exact IHl].
  - apply HO.
    induction fields as [| [k x] l IHl]; constructor; [apply IH | exact IHl].
  - apply HF.
Qed.

Lemma stringify_array (x : value) (more : list value) :
  stringify (JArray (x :: more)) = "[" +:+ stringify x +:+ array_tail more.
Proof. reflexivity. Qed.

Lemma stringify_object (k : string) (x : value)
    (more : list (string * value)) :
  stringify (JObject ((k, x) :: more))
  = "{" +:+ quote k +:+ ":" +:+ stringify x +:+ object_tail more.
Proof. reflexivity. Qed.

Lemma number_text_head (n : Z) :
  exists c t, number_text n = String c t
              /\ is_digit c || Ascii.eqb c "-" = true.
Proof.
  destruct n as [| p | p].
  - by exists "0"%char, EmptyString.
  - unfold number_text. cbn [Z.to_int NilZero.string_of_int].
    pose proof (DecimalPos.Unsigned.to_uint_nonnil p) as NN.
    destruct (Pos.to_uint p); [done | ..]; by eexists _, _.
  - by eexists _, _.
Qed.

Lemma stringify_head (v : value) :
  exists c t, stringify v = String c t /\ starter c = true.
Proof.
  destruct v as [| [] | n | s | [| x l] | [| [k x] l] | n'];
    try (by eexists _, _).
  destruct (number_text_head n) as (c & t & E & D).
  exists c, t. split; [exact E |]. unfold starter.
  destruct (is_digit c); [done |]. cbn in D. by rewrite D.
Qed.

Lemma value_of_number (f : nat) (c : ascii) (t : string) :
  is_digit c || Ascii.eqb c "-" = true ->
  value_of (S f) (String c t)
  = '(n, r) ← number (String c t); Some (JNumber n, r).
Proof.
  destruct c as [[] [] [] [] [] [] [] []]; intros D;
    try discriminate D; reflexivity.
Qed.

Lemma value_of_string (f : nat) (t : string) :
  value_of (S f) (String dquote t)
  = '(str, r) ← chars t; Some (JString str, r).
Proof. reflexivity. Qed.

Lemma value_of_array (f : nat) (c : ascii) (t : string) :
  starter c = true ->
  value_of (S f) (String "[" (String c t))
  = '(items, r) ← elements f (String c t); Some (JArray items, r).
Proof.
  destruct c as [[] [] [] [] [] [] [] []]; intros D;
    try discriminate D; reflexivity.
Qed.

Lemma value_of_object (f : nat) (t : string) :
  value_of (S f) (String "{" (String dquote t))
  = '(fields, r) ← members f (String dquote t); Some (JObject fields, r).
Proof. reflexivity. Qed.

Lemma elements_step (f : nat) (s : string) :
  elements (S f) s
  = '(x, r) ← value_of f s;
    match skip_ws r with
    | String "," r' => '(more, r'') ← elements f r'; Some (x :: more, r'')
    | String "]" r' => Some ([x], r')
    | _ => None
    end.
Proof. reflexivity. Qed.

Lemma members_step (f : nat) (t : string) :
  members (S f) (String dquote t)
  = '(k, r) ← chars t;
    match skip_ws r with
    | String ":" r0 =>
        '(x, r1) ← value_of f r0;
        match skip_ws r1 with
        | String "," r' =>
            '(more, r'') ← members f r'; Some ((k, x) :: more, r'')
        | String "}" r' => Some ([(k, x)], r')
        | _ => None
        end
    | _ => None
    end.
Proof. reflexivity. Qed.

Lemma closes_array_tail (l : list value) (rest : string) :
  closes (array_tail l +:+ rest) = true.
Proof. by destruct l. Qed.

Lemma closes_object_tail (l : list (string * value)) (rest : string) :
  closes (object_tail l +:+ rest) = true.
Proof. by destruct l as [| [k y] l]. Qed.

Lemma elements_reads_back (more : list value) :
  Forall reads_back more ->
  forall (x : value) (f : nat) (rest : string),
    reads_back x ->
    (S (size x + sizes more) <= f)%nat ->
    elements f (stringify x +:+ array_tail more +:+ rest)
    = Some (x :: more, rest).
Proof.
  induction 1 as [| y l Hy Hl IH]; intros x f rest Hx Lf;
    (destruct f as [| f]; [lia |]); rewrite elements_step.
  - rewrite (Hx f _ ltac:(cbn in Lf; lia) (closes_array_tail [] rest)).
    reflexivity.
  - rewrite (Hx f _ ltac:(cbn in Lf; lia) (closes_array_tail (y :: l) rest)).
    cbn [array_tail]. rewrite !append_assoc.
    change (mbind ?k (Some ?a)) with (k a). cbn beta iota.
    change (skip_ws ("," +:+ ?t)) with (String ","%char t).
    cbn beta iota.
    rewrite (IH y f rest Hy ltac:(cbn in Lf |- *; lia)). reflexivity.
Qed.

Lemma members_reads_back (more : list (string * value)) :
  Forall (fun kv => reads_back kv.2) more ->
  forall (k : string) (x : value) (f : nat) (rest : string),
    reads_back x ->
    (S (size x + member_sizes more) <= f)%nat ->
    members f (quote k +:+ ":" +:+ stringify x +:+ object_tail more +:+ rest)
    = Some ((k, x) :: more, rest).
Proof.
  induction 1 as [| [k' y] l Hy Hl IH]; intros k x f rest Hx Lf;
    (destruct f as [| f]; [lia |]);
    rewrite quote_append, members_step, chars_escape_all;
    change (mbind ?g (Some ?a)) with (g a); cbn beta iota;
    change (skip_ws (":" +:+ ?t)) with (String ":"%char t); cbn beta iota.
  - rewrite (Hx f _ ltac:(cbn in Lf; lia) (closes_object_tail [] rest)).
    reflexivity.
  - rewrite (Hx f _ ltac:(cbn in Lf; lia)
               (closes_object_tail ((k', y) :: l) rest)).
    cbn [object_tail]. rewrite !append_assoc.
    change (mbind ?g (Some ?a)) with (g a). cbn beta iota.
    change (skip_ws ("," +:+ ?t)) with (String ","%char t).
    cbn beta iota.
    rewrite (IH k' y f rest Hy ltac:(cbn in Lf |- *; lia)). reflexivity.
Qed.

Lemma finite_items (P : value -> Prop) (items : list value) :
  Forall (fun x => finite x = true -> P x) items ->
  forallb finite items = true -> Forall P items.
Proof.
  induction 1 as [| x l Hx Hl IH]; [constructor |].
  cbn [forallb]. intros [Fx Fl]%andb_prop. constructor; auto.
Qed.

Lemma finite_fields (P : value -> Prop) (fields : list (string * value)) :
  Forall (fun kv => finite kv.2 = true -> P kv.2) fields ->
  forallb (fun kv => finite kv.2) fields = true ->
  Forall (fun kv => P kv.2) fields.
Proof.
  induction 1 as [| x l Hx Hl IH]; [constructor |].
  cbn [forallb]. intros [Fx Fl]%andb_prop. constructor; auto.
Qed.

Lemma value_reads_back (v : value) : finite v = true -> reads_back v.
Proof.
  induction v as [| b | n | s | items IH | fields IH | n]
    using value_nested_ind;
    intros Fv; [| | | | apply finite_items in IH; [| exact Fv]
                | apply finite_fields in IH; [| exact Fv] | discriminate Fv];
    intros f rest Lf C; (destruct f as [| f]; [cbn in Lf; lia |]).
  - reflexivity.
  - by destruct b.
  - destruct (number_text_head n) as (c & t & E & D).
    change (stringify (JNumber n)) with (number_text n).
    pose proof (number_of_text n rest C) as N.
    rewrite E, append_cons in N |- *.
    by rewrite (value_of_number f c _ D), N.
  - change (stringify (JString s)) with (quote s).
    by rewrite quote_append, value_of_string, chars_escape_all.
  - destruct items as [| x more]; [reflexivity |].
    apply Forall_cons in IH as [Hx Hmore].
    change (size (JArray (x :: more)))
      with (S (S (size x + sizes more))) in Lf.
    rewrite stringify_array, !append_assoc.
    change ("[" +:+ ?t) with (String "["%char t).
    destruct (stringify_head x) as (c & t & E & St).
    rewrite E, append_cons, (value_of_array f c _ St), <- append_cons, <- E.
    by rewrite (elements_reads_back more Hmore x f rest Hx ltac:(lia)).
  - destruct fields as [| [k x] more]; [reflexivity |].
    apply Forall_cons in IH as [Hx Hmore]. cbn in Hx.
    change (size (JObject ((k, x) :: more)))
      with (S (S (size x + member_sizes more))) in Lf.
    rewrite stringify_object, !append_assoc.
    change ("{" +:+ ?t) with (String "{"%char t).
    rewrite quote_append, value_of_object, <- quote_append.
    by rewrite (members_reads_back more Hmore k x f rest Hx ltac:(lia)).
Qed.

Lemma size_array_tail (l : list value) :
  Forall (fun v => (size v <= String.length (stringify v))%nat) l ->
  (S (sizes l) <= String.length (array_tail l))%nat.
Proof.
  induction 1 as [| y l Hy Hl IH]; [cbn; lia |].
  cbn [array_tail sizes]. rewrite !length_append. cbn. lia.
Qed.

Lemma size_object_tail (l : list (string * value)) :
  Forall (fun kv => (size kv.2 <= String.length (stringify kv.2))%nat) l ->
  (S (member_sizes l) <= String.length (object_tail l))%nat.
Proof.
  induction 1 as [| [k y] l Hy Hl IH]; [cbn; lia |].
  cbn [object_tail member_sizes]. rewrite !length_append. cbn in *. lia.
Qed.

Lemma size_le_length (v : value) :
  (size v <= String.length (stringify v))%nat.
Proof.
  induction v as [| b | n | s | items IH | fields IH | n]
    using value_nested_ind.
  - cbn. lia.
  - destruct b; cbn; lia.
  - destruct (number_text_head n) as (c & t & E & _).
    change (stringify (JNumber n)) with (number_text n).
    rewrite E. cbn. lia.
  - cbn. lia.
  - destruct items as [| x more]; [cbn; lia |].
    apply Forall_cons in IH as [Hx Hmore].
    change (size (JArray (x :: more))) with (S (S (size x + sizes more))).
    rewrite stringify_array, !length_append.
    pose proof (size_array_tail more Hmore). cbn. lia.
  - destruct fields as [| [k x] more]; [cbn; lia |].
    apply Forall_cons in IH as [Hx Hmore]. cbn in Hx.
    change (size (JObject ((k, x) :: more)))
      with (S (S (size x + member_sizes more))).
    rewrite stringify_object, !length_append.
    pose proof (size_object_tail more Hmore). cbn. lia.
  - cbn. lia.
Qed.

(** The reference codec loses nothing of a value that has no non-finite
    number in it. *)
Theorem lossless (v : value) :
  finite v = true -> parse_text (stringify v) = Some v.
Proof.
  intros Fv. unfold parse_text.
  pose proof (value_reads_back v Fv
                (2 * String.length (stringify v) + 2)%nat ""
                ltac:(pose proof (size_le_length v); lia) eq_refl) as R.
  rewrite append_nil_r in R. by rewrite R.
Qed.

Lemma stringify_nonempty (v : value) : stringify v <> "".
Proof. destruct (stringify_head v) as (c & t & -> & _). discriminate. Qed.

End ReferenceFacts.
(** ** The properties at work *)

Section Concrete.
Existing Instance Reference.json.

(** The reference codec loses nothing of a value without non-finite
    numbers, so that on it the cache gives back every such theme. *)
Lemma reference_round_trips (v : value) : finite v = true -> round_trips v.
Proof.
  intros Fv. split.
  - apply ReferenceFacts.stringify_nonempty.
  - by apply ReferenceFacts.lossless.
Qed.

Lemma reference_cache_round_trip (T : Theme) (w : World) :
  storage_faults w (clock w) = None ->
  storage_faults w (S (clock w)) = None ->
  exists w',
    run (cacheTheme (theme_value T) ;; getCachedTheme) w
    = (inr (theme_value T), w').
Proof.
  intros Uw Ur.
  rewrite run_bind, run_cacheTheme, run_getCachedTheme.
  rewrite (cached_written _ w Uw Ur
             (reference_round_trips (theme_value T) eq_refl)).
  by eexists.
Qed.

(** C1, counterexample.  First launch with Remote Config out of reach:
    [fetchTheme] resolves to [null], which is no theme. *)
Lemma fetchTheme_resolves_to_null :
  (run fetchTheme (boot ∅ ∅ unreachable)).1 = inr JNull
  /\ is_Theme JNull = false.
Proof. split; vm_compute; reflexivity. Qed.

(** C2, counterexample.  The backend delivers a malformed payload and the
    cache is empty: the remote path fails, and [fetchTheme] resolves to
    [null], not to [DEFAULT_THEME]. *)
Lemma fetchTheme_empty_cache_not_default :
  remote_path_fails (boot ∅ (backend_of malformed_text) no_faults)
  /\ cache_empty (boot ∅ (backend_of malformed_text) no_faults)
  /\ (run fetchTheme (boot ∅ (backend_of malformed_text) no_faults)).1
     = inr JNull
  /\ JNull <> theme_value DEFAULT_THEME.
Proof.
  split_and!.
  - do 2 eexists. vm_compute. reflexivity.
  - reflexivity.
  - vm_compute. reflexivity.
  - discriminate.
Qed.

(** C3, counterexample.  The backend delivers a document with most of the
    schema missing: [fetchTheme] returns it and the cache now holds it. *)
Lemma fetchTheme_caches_schema_violation :
  let w := boot ∅ (backend_of partial_text) no_faults in
  is_Theme partial_theme = false
  /\ (run fetchTheme w).1 = inr partial_theme
  /\ storage (run fetchTheme w).2 !! THEME_CACHE_KEY = Some partial_text.
Proof. split_and!; vm_compute; reflexivity. Qed.

(** C4, counterexample.  First call on an empty cache: the default seeded for
    the theme key is the text [null], not the text of [DEFAULT_THEME]. *)
Lemma initialize_empty_cache_seeds_null :
  let w := boot ∅ ∅ no_faults in
  (run initialize w).1 = inr tt
  /\ rc_defaults (remote (run initialize w).2) !! THEME_CONFIG_KEY
     = Some "null"
  /\ "null" <> JSON_stringify (theme_value DEFAULT_THEME).
Proof. split_and!; [vm_compute; reflexivity .. | discriminate]. Qed.

(** C9, counterexample.  Two calls invoked before either completes, resumed
    in turn: both are over and [setDefaults] has been called twice. *)
Lemma concurrent_initialize_seeds_twice :
  let start := invoke_all 2 initialize (boot ∅ ∅ no_faults) in
  let over := run_sched [0; 1; 0; 1; 0; 1]%nat start.1 start.2 in
  forallb finished over.1 = true
  /\ seedings over.2 = 2%nat.
Proof. split; vm_compute; reflexivity. Qed.

(** C2 at work: first launch, empty cache, Remote Config out of reach. *)
Lemma fetchTheme_failure_empty_cache_witness :
  exists w',
    run fetchTheme (boot ∅ ∅ unreachable) = (inr JNull, w')
    /\ storage w' = storage (boot ∅ ∅ unreachable).
Proof.
  apply (fetchTheme_failure_empty_cache (boot ∅ ∅ unreachable)).
  - do 2 eexists. vm_compute. reflexivity.
  - reflexivity.
Defined.

(** C3 at work: the backend delivers the partial document. *)
Lemma fetchTheme_accepts_whatever_parses_witness :
  let w := boot ∅ (backend_of partial_text) no_faults in
  (forall v, JSON_parse partial_text = Some v ->
     exists w',
       run fetchTheme w = (inr v, w')
       /\ hd_error (trace w')
          = Some (EvSetItem THEME_CACHE_KEY (JSON_stringify v))
       /\ (storage_up w ->
           storage w' !! THEME_CACHE_KEY = Some (JSON_stringify v)))
  /\ (JSON_parse partial_text = None ->
      remote_path_fails w
      /\ exists v w',
           run fetchTheme w = (inr v, w')
           /\ storage w' = storage w /\ cache_writes w' = cache_writes w).
Proof.
  apply (fetchTheme_accepts_whatever_parses
           (boot ∅ (backend_of partial_text) no_faults) partial_text).
  - intros t. reflexivity.
  - reflexivity.
Defined.

(** C4 at work: first call with the night theme in the cache. *)
Lemma initialize_seeds_cached_or_null_witness :
  let w := boot (cache_of night_text) ∅ no_faults in
  exists w',
    run initialize w = (inr tt, w')
    /\ initialized w' = true
    /\ (forall C, cache_holds w C -> storage_up w ->
          rc_defaults (remote w')
          = {[ THEME_CONFIG_KEY := JSON_stringify C ]})
    /\ (cache_empty w ->
          rc_defaults (remote w')
          = {[ THEME_CONFIG_KEY := JSON_stringify JNull ]}).
Proof.
  apply (initialize_seeds_cached_or_null
           (boot (cache_of night_text) ∅ no_faults)).
  - reflexivity.
  - intros t. reflexivity.
Defined.

(** C5 at work: the night theme is cached and Remote Config is out of
    reach. *)
Lemma fetchTheme_failure_serves_cache_witness :
  exists w',
    run fetchTheme (boot (cache_of night_text) ∅ unreachable)
    = (inr (theme_value night), w')
    /\ storage w' = storage (boot (cache_of night_text) ∅ unreachable).
Proof.
  apply (fetchTheme_failure_serves_cache
           (boot (cache_of night_text) ∅ unreachable) (theme_value night)).
  - do 2 eexists. vm_compute. reflexivity.
  - exists night_text.
    split_and!; [reflexivity | by vm_compute | vm_compute; reflexivity].
  - intros t. reflexivity.
Defined.

(** The round trip at work: the default theme through the reference
    codec. *)
Lemma cache_round_trip_witness :
  exists w',
    run (cacheTheme (theme_value DEFAULT_THEME) ;; getCachedTheme)
      (boot ∅ ∅ no_faults)
    = (inr (theme_value DEFAULT_THEME), w').
Proof.
  apply (cache_round_trip DEFAULT_THEME (boot ∅ ∅ no_faults)).
  - reflexivity.
  - reflexivity.
  - split; [by vm_compute | vm_compute; reflexivity].
Defined.

(** C7 at work: the night theme is cached and the backend delivers a
    malformed payload. *)
Lemma fetchTheme_malformed_payload_witness :
  let w := boot (cache_of night_text) (backend_of malformed_text) no_faults in
  exists w',
    run fetchTheme w = (inr (theme_value night), w')
    /\ storage w' = storage w /\ cache_writes w' = cache_writes w.
Proof.
  apply (fetchTheme_malformed_payload
           (boot (cache_of night_text) (backend_of malformed_text) no_faults)
           malformed_text (theme_value night)).
  - reflexivity.
  - vm_compute. reflexivity.
  - exists night_text.
    split_and!; [reflexivity | by vm_compute | vm_compute; reflexivity].
  - intros t. reflexivity.
Defined.

(** C8 at work: [setConfigSettings] is rejected once, then Remote Config
    accepts its calls. *)
Lemma initialize_failure_leaves_uninitialized_witness :
  let w := boot ∅ ∅ (rejected_at 0) in
  let w1 := (run initialize w).2 in
  initialized w = false /\ initialized w1 = false
  /\ storage w1 = storage w
  /\ (exists r w2 evs,
        run initialize w1 = (r, w2)
        /\ trace w2 = evs ++ EvSetConfigSettings 0 0 :: trace w1)
  /\ ((forall t, (clock w1 <= t)%nat -> rc_faults w1 t = None) ->
      exists w2,
        run initialize w1 = (inr tt, w2)
        /\ initialized w2 = true
        /\ trace w2 = EvSetDefaults (seed w1) :: EvGetItem THEME_CACHE_KEY
                       :: EvSetConfigSettings 0 0 :: trace w1).
Proof.
  apply (initialize_failure_leaves_uninitialized
           (boot ∅ ∅ (rejected_at 0))
           (run initialize (boot ∅ ∅ (rejected_at 0))).2
           (Error "network request failed")).
  vm_compute. reflexivity.
Defined.

(** C9 at work: three calls invoked together and resumed in a mixed
    order. *)
Lemma concurrent_initialize_seeds_each_witness :
  let w := boot (cache_of night_text) ∅ no_faults in
  let start := invoke_all 3 initialize w in
  let over := run_sched [0; 1; 2; 2; 1; 0; 1; 0; 2]%nat start.1 start.2 in
  seedings over.2 = (seedings w + 3)%nat
  /\ forallb fulfilled over.1 = true.
Proof.
  apply (concurrent_initialize_seeds_each 3 [0; 1; 2; 2; 1; 0; 1; 0; 2]%nat
           (boot (cache_of night_text) ∅ no_faults) _
           (run_sched [0; 1; 2; 2; 1; 0; 1; 0; 2]%nat
              (invoke_all 3 initialize
                 (boot (cache_of night_text) ∅ no_faults)).1
              (invoke_all 3 initialize
                 (boot (cache_of night_text) ∅ no_faults)).2).1).
  - reflexivity.
  - intros t. reflexivity.
  - vm_compute. reflexivity.
  - vm_compute. reflexivity.
Defined.

(** The [else] branch at work: first launch, empty cache, Remote Config out
    of reach, so that [fetchTheme] resolves to [null]. *)
Lemma refreshTheme_falsy_uses_default_witness :
  exists w',
    run refreshTheme (boot ∅ ∅ unreachable) = (inr tt, w')
    /\ provider w' = {| theme := theme_value DEFAULT_THEME;
                        isLoading := false;
                        error_message := None |}.
Proof.
  apply (refreshTheme_falsy_uses_default (boot ∅ ∅ unreachable)
           (run fetchTheme (refreshing (boot ∅ ∅ unreachable))).2 JNull).
  - vm_compute. reflexivity.
  - reflexivity.
Defined.

End Concrete.

(** * Further properties of the service and of the provider *)

Section ServiceFurther.
Context `{JSON}.

#[local] Arguments run : simpl never.
#[local] Arguments bind : simpl never.
#[local] Arguments try_catch : simpl never.
#[local] Arguments finally : simpl never.
#[local] Arguments call : simpl never.

(** The remote path when Remote Config accepts its calls and delivers a
    text that parses. *)
Lemma fetchTheme_try_accepted (w : World) (raw : string) (v : value) :
  remote_up w ->
  rc_backend (remote w) !! THEME_CONFIG_KEY = Some raw ->
  JSON_parse raw = Some v ->
  run fetchTheme_try w
  = (inr v, written v (activated (if initialized w then w else seeded w))).
Proof.
  intros U B P. rewrite run_fetchTheme_try, (initialize_remote_up w U).
  set (w0 := if initialized w then w else seeded w).
  assert (rc_faults w0 = rc_faults w) as ->
    by (subst w0; by destruct (initialized w)).
  rewrite U.
  assert (served w0 = raw) as ->.
  { unfold served, getValue_asString. cbn.
    assert (rc_backend (remote w0) = rc_backend (remote w)) as ->
      by (subst w0; by destruct (initialized w)).
    by rewrite B. }
  by rewrite P.
Qed.

(** What the first call serves when the backend has no value for the theme
    key: the default just seeded. *)
Lemma served_seeded_missing_key (w : World) :
  rc_backend (remote w) !! THEME_CONFIG_KEY = None ->
  served (seeded w) = JSON_stringify (cached (configured w)).
Proof.
  intros B. unfold served, getValue_asString. cbn. rewrite B.
  unfold seed.
  change (<["app_theme" := ?x]> ∅)
    with (<[THEME_CONFIG_KEY := x]> (∅ : gmap string string)).
  by rewrite lookup_insert_eq.
Qed.

Lemma fetchTheme_try_missing_key (w : World) (v : value) :
  initialized w = false -> remote_up w ->
  rc_backend (remote w) !! THEME_CONFIG_KEY = None ->
  cached (configured w) = v -> round_trips v ->
  run fetchTheme_try w = (inr v, written v (activated (seeded w))).
Proof.
  intros I U B C [_ P].
  rewrite run_fetchTheme_try, (initialize_remote_up w U), I.
  change (rc_faults (seeded w)) with (rc_faults w). rewrite U.
  by rewrite (served_seeded_missing_key w B), C, P.
Qed.

Lemma storage_written (v : value) (w : World) :
  storage (written v w)
  = match storage_faults w (clock w) with
    | Some _ => storage w
    | None => <[THEME_CACHE_KEY := JSON_stringify v]> (storage w)
    end.
Proof. unfold written. by destruct (storage_faults w (clock w)). Qed.

(** X1.  After an [initialize] that went through, a further [initialize]
    does nothing: it makes no platform call and leaves every store as it
    is. *)
Theorem initialize_after_success_is_noop (w w1 : World) :
  run initialize w = (inr tt, w1) ->
  run initialize w1 = (inr tt, w1).
Proof.
  intros R. apply initialize_success in R. destruct R as (I & _).
  by rewrite run_initialize, I.
Qed.

(** X2.  [getCachedTheme] degrades to [null] without throwing: when the read
    is rejected, when there is no item, when the item is the empty string,
    and when the item does not parse.  It only reads. *)
Theorem getCachedTheme_degrades_to_null (w : World) :
  storage_faults w (clock w) <> None
  \/ storage w !! THEME_CACHE_KEY = None
  \/ storage w !! THEME_CACHE_KEY = Some ""
  \/ (exists s, storage w !! THEME_CACHE_KEY = Some s
                /\ JSON_parse s = None) ->
  run getCachedTheme w = (inr JNull, called (EvGetItem THEME_CACHE_KEY) w).
Proof.
  intros D. rewrite run_getCachedTheme. f_equal. f_equal. unfold cached.
  destruct (storage_faults w (clock w)) as [e |]; [done |].
  destruct D as [D | [-> | [-> | (s & -> & P)]]]; try done.
  rewrite P. by destruct (String.eqb s "").
Qed.

(** X3.  Caching is best effort: with AsyncStorage rejecting every call,
    [fetchTheme] still resolves to the theme Remote Config delivers, and the
    store is left as it was. *)
Theorem fetchTheme_without_storage (w : World) (raw : string) (v : value) :
  remote_up w -> storage_down w ->
  rc_backend (remote w) !! THEME_CONFIG_KEY = Some raw ->
  JSON_parse raw = Some v ->
  exists w', run fetchTheme w = (inr v, w') /\ storage w' = storage w.
Proof.
  intros U D B P.
  rewrite run_fetchTheme, (fetchTheme_try_accepted w raw v U B P).
  eexists. split; [reflexivity |]. rewrite storage_written.
  set (w0 := activated (if initialized w then w else seeded w)).
  assert (storage_faults w0 = storage_faults w) as F
    by (subst w0; by destruct (initialized w)).
  assert (storage w0 = storage w) as S0
    by (subst w0; by destruct (initialized w)).
  rewrite F. destruct (storage_faults w (clock w0)) eqn:E; [done |].
  by destruct (D (clock w0)).
Qed.

(** X4.  Write-through: after a [fetchTheme] whose remote path went through
    with [v], on a store that accepts its calls and a codec that loses
    nothing of [v], the cache holds [v], and a later [fetchTheme] whose
    remote path fails resolves to [v]. *)
Theorem fetchTheme_write_through (w w1 : World) (v : value) :
  run fetchTheme_try w = (inr v, w1) ->
  storage_up w -> round_trips v ->
  run fetchTheme w = (inr v, w1)
  /\ cache_holds w1 v
  /\ (remote_path_fails w1 ->
      exists w2, run fetchTheme w1 = (inr v, w2)).
Proof.
  intros R U [N P].
  assert (storage_faults w1 = storage_faults w) as F.
  { pose proof (run_faults fetchTheme_try w) as [_ F]. by rewrite R in F. }
  pose proof (fetchTheme_try_success w w1 v R) as (_ & _ & St).
  assert (cache_holds w1 v) as Hc.
  { exists (JSON_stringify v). rewrite (St U), lookup_insert_eq. done. }
  split_and!; [by rewrite run_fetchTheme, R | exact Hc |].
  intros (e & w2 & R2). rewrite run_fetchTheme, R2.
  apply fetchTheme_try_failure in R2. destruct R2 as (S2 & _ & F2 & _).
  assert (storage_up w1) as U1 by (intros t; rewrite F; apply U).
  rewrite (cached_of_holds w1 w2 v Hc U1 S2 F2). eauto.
Qed.

(** X5.  Missing key on a first launch with an empty cache: the default
    seeded by [initialize] is the text of [null], Remote Config serves it
    back, and [fetchTheme] resolves to [null] and writes the text of [null]
    into the cache. *)
Theorem fetchTheme_missing_key_empty_cache (w : World) :
  initialized w = false -> remote_up w -> storage_up w ->
  cache_empty w ->
  rc_backend (remote w) !! THEME_CONFIG_KEY = None ->
  round_trips JNull ->
  exists w',
    run fetchTheme w = (inr JNull, w')
    /\ storage w' !! THEME_CACHE_KEY = Some (JSON_stringify JNull).
Proof.
  intros I U SU E B L.
  pose proof (cached_of_empty w (configured w) E eq_refl) as C.
  rewrite run_fetchTheme, (fetchTheme_try_missing_key w JNull I U B C L).
  eexists. split; [reflexivity |].
  rewrite storage_written.
  change (storage_faults (activated (seeded w))) with (storage_faults w).
  rewrite SU. apply lookup_insert_eq.
Qed.

(** X6.  Missing key on a first launch with a theme [C] in the cache: the
    default seeded is the text of [C], and [fetchTheme] resolves to [C]. *)
Theorem fetchTheme_missing_key_serves_cache (w : World) (C : value) :
  initialized w = false -> remote_up w -> storage_up w ->
  cache_holds w C ->
  rc_backend (remote w) !! THEME_CONFIG_KEY = None ->
  round_trips C ->
  exists w', run fetchTheme w = (inr C, w').
Proof.
  intros I U SU Hc B L.
  pose proof (cached_of_holds w (configured w) C Hc SU eq_refl eq_refl) as E.
  rewrite run_fetchTheme, (fetchTheme_try_missing_key w C I U B E L).
  by eexists.
Qed.

(** X7.  Once the service is initialized, [fetchTheme] never seeds again:
    whatever happens, it stays initialized, makes no call of [setDefaults]
    and leaves the defaults and the settings of Remote Config as they
    are. *)
Theorem fetchTheme_initialized_no_reseed
    (w w' : World) (r : exn + value) :
  initialized w = true ->
  run fetchTheme w = (r, w') ->
  initialized w' = true
  /\ seedings w' = seedings w
  /\ rc_defaults (remote w') = rc_defaults (remote w)
  /\ rc_settings (remote w') = rc_settings (remote w).
Proof.
  intros I. rewrite run_fetchTheme, run_fetchTheme_try.
  rewrite (initialize_idempotent w I).
  destruct (rc_faults w (clock w)).
  - intros [= <- <-]. done.
  - destruct (JSON_parse (served w)).
    + intros [= <- <-]. unfold written.
      by destruct (storage_faults (activated w) (clock (activated w))).
    + intros [= <- <-]. done.
Qed.

(** X8.  A failure of [initialize] is not undone: when [setDefaults] is
    rejected after [setConfigSettings] was accepted, [initialize] rejects
    with that error and stays uninitialized, the defaults are untouched, but
    Remote Config keeps the settings just configured. *)
Theorem initialize_partial_failure (w : World) (e : exn) :
  initialized w = false ->
  rc_faults w (clock w) = None ->
  rc_faults w (S (S (clock w))) = Some e ->
  exists w1,
    run initialize w = (inl e, w1)
    /\ initialized w1 = false
    /\ rc_settings (remote w1) = Some (0, 0)
    /\ rc_defaults (remote w1) = rc_defaults (remote w).
Proof.
  intros I F0 F2. rewrite run_initialize, I, F0, F2.
  eexists. by split_and!.
Qed.

(** X9.  An unreadable or corrupt cache does not stop [initialize]: when the
    read of the cache is rejected, or its content does not parse,
    [initialize] still goes through and seeds the text of [null]. *)
Theorem initialize_unreadable_cache (w : World) :
  initialized w = false -> remote_up w ->
  storage_faults w (S (clock w)) <> None
  \/ (exists s, storage w !! THEME_CACHE_KEY = Some s
                /\ JSON_parse s = None) ->
  exists w',
    run initialize w = (inr tt, w')
    /\ initialized w' = true
    /\ rc_defaults (remote w')
       = {[ THEME_CONFIG_KEY := JSON_stringify JNull ]}.
Proof.
  intros I U D. rewrite (initialize_remote_up w U), I.
  exists (seeded w). split_and!; [done | done |].
  cbn. unfold seed. do 2 f_equal. unfold cached. cbn.
  destruct (storage_faults w (S (clock w))) as [e |]; [done |].
  destruct D as [D | (s & -> & P)]; [done |].
  rewrite P. by destruct (String.eqb s "").
Qed.

(** X10.  [refreshTheme] never rejects and never ends in the error state:
    in every world it ends with [isLoading] false and [error] null, whatever
    they were before, and with the value [fetchTheme] resolved to as the
    theme, or [DEFAULT_THEME] for a falsy one. *)
Theorem refreshTheme_always_settles (w : World) :
  exists v w1 w',
    run fetchTheme (refreshing w) = (inr v, w1)
    /\ run refreshTheme w = (inr tt, w')
    /\ provider w' = {| theme := if truthy v then v
                                 else theme_value DEFAULT_THEME;
                        isLoading := false;
                        error_message := None |}.
Proof.
  rewrite run_refreshTheme.
  destruct (run fetchTheme (refreshing w)) as [r w1] eqn:F.
  pose proof (fetchTheme_provider _ _ _ F) as P.
  assert (exists v, r = inr v) as (v & ->).
  { rewrite run_fetchTheme in F.
    destruct (run fetchTheme_try (refreshing w)) as [[e | v] w2];
      injection F as <- _; eauto. }
  exists v, w1. eexists. split_and!; [done | reflexivity |].
  cbn. by rewrite P.
Qed.

(** X11.  The provider applies no schema check either: when Remote Config
    delivers a text that parses to a truthy value [v], [refreshTheme] makes
    [v] the current theme, whatever its shape. *)
Theorem refreshTheme_shows_remote_value
    (w : World) (raw : string) (v : value) :
  remote_up w ->
  rc_backend (remote w) !! THEME_CONFIG_KEY = Some raw ->
  JSON_parse raw = Some v ->
  truthy v = true ->
  exists w',
    run refreshTheme w = (inr tt, w')
    /\ provider w' = {| theme := v; isLoading := false;
                        error_message := None |}.
Proof.
  intros U B P T. rewrite run_refreshTheme.
  destruct (run fetchTheme (refreshing w)) as [r w1] eqn:F.
  pose proof (fetchTheme_provider _ _ _ F) as Pr.
  rewrite run_fetchTheme,
    (fetchTheme_try_accepted (refreshing w) raw v U B P) in F.
  injection F as <- _. rewrite T.
  eexists. split; [reflexivity |]. cbn. by rewrite Pr.
Qed.

(** X12.  Offline with a cached theme: when the remote path fails and the
    cache holds a truthy [C], [refreshTheme] makes [C] the current theme and
    ends out of the loading and error states. *)
Theorem refreshTheme_offline_shows_cached (w : World) (C : value) :
  remote_path_fails (refreshing w) ->
  cache_holds w C -> storage_up w ->
  truthy C = true ->
  exists w',
    run refreshTheme w = (inr tt, w')
    /\ provider w' = {| theme := C; isLoading := false;
                        error_message := None |}.
Proof.
  intros (e & w1 & R) Hc U T. rewrite run_refreshTheme, run_fetchTheme, R.
  apply fetchTheme_try_failure in R. destruct R as (St & _ & F & Pr).
  rewrite (cached_of_holds w w1 C Hc U St F), T.
  eexists. split; [reflexivity |]. cbn. by rewrite Pr.
Qed.

End ServiceFurther.

(** * Properties of the components *)

Section Components.

Lemma dot2_spec (v : value) (k k2 : string) :
  dot (dot (inr (Some v)) k) k2
  = if negb (is_null v) && readable k v
    then inr (get k2 (sub k v))
    else inl TypeError.
Proof.
  unfold readable, sub.
  destruct v; cbn; try reflexivity.
  destruct (assoc k fields) as [[] |]; reflexivity.
Qed.

Lemma dot3_spec (v : value) (k k2 k3 : string) :
  dot (dot (dot (inr (Some v)) k) k2) k3
  = if negb (is_null v) && readable k v && readable k2 (sub k v)
    then inr (get k3 (sub k2 (sub k v)))
    else inl TypeError.
Proof.
  rewrite dot2_spec.
  destruct (negb (is_null v) && readable k v); [| reflexivity].
  cbn. unfold readable, sub.
  destruct (get k2 (default JNull (get k v))) as [[] |]; reflexivity.
Qed.

Lemma renderable_parts (v : value) :
  renderable v = true ->
  negb (is_null v) && readable "colors" v = true
  /\ negb (is_null v) && readable "spacing" v = true
  /\ negb (is_null v) && readable "typography" v
     && readable "fontSize" (sub "typography" v) = true
  /\ negb (is_null v) && readable "typography" v
     && readable "fontWeight" (sub "typography" v) = true.
Proof.
  unfold renderable.
  destruct (is_null v), (readable "colors" v), (readable "spacing" v),
    (readable "typography" v), (readable "fontSize" (sub "typography" v)),
    (readable "fontWeight" (sub "typography" v)); cbn; intros [=]; done.
Qed.

Lemma ThemedButton_renderable (v : value) (props : ThemedButtonProps) :
  renderable v = true ->
  exists s c, ThemedButton v props = inr (TouchableOpacity s c).
Proof.
  intros R. destruct (renderable_parts v R) as (C & S & FS & FW).
  unfold ThemedButton. rewrite !dot3_spec, !dot2_spec, C, S, FS, FW.
  destruct (String.eqb (default "primary" (variant props)) "primary");
    cbn; eauto.
Qed.

Lemma ThemedButton_unrenderable (v : value) (props : ThemedButtonProps) :
  renderable v = false ->
  ThemedButton v props = inl TypeError.
Proof.
  unfold renderable, ThemedButton. rewrite !dot3_spec, !dot2_spec.
  destruct (is_null v), (readable "colors" v), (readable "spacing" v),
    (readable "typography" v), (readable "fontSize" (sub "typography" v)),
    (readable "fontWeight" (sub "typography" v)); cbn; intros [=];
    by destruct (String.eqb (default "primary" (variant props)) "primary").
Qed.

Lemma has_object_inv (k : string) (shape : value -> bool) (v : value) :
  has_object k shape v = true ->
  exists f, get k v = Some (JObject f) /\ shape (JObject f) = true.
Proof.
  unfold has_object. destruct (get k v) as [[] |]; try discriminate. eauto.
Qed.

Lemma is_Theme_renderable (v : value) :
  is_Theme v = true -> renderable v = true.
Proof.
  unfold is_Theme. intros T.
  apply andb_true_iff in T as [T Sp]. apply andb_true_iff in T as [C Ty].
  apply has_object_inv in C as (cf & Gc & _).
  apply has_object_inv in Sp as (sf & Gs & _).
  apply has_object_inv in Ty as (tf & Gt & Ty).
  unfold is_ThemeTypography in Ty.
  apply andb_true_iff in Ty as [Ty FW]. apply andb_true_iff in Ty as [_ FS].
  apply has_object_inv in FS as (fs & Gfs & _).
  apply has_object_inv in FW as (fw & Gfw & _).
  unfold renderable, readable, sub. rewrite Gc, Gs, Gt.
  change (default JNull (Some (JObject tf))) with (JObject tf).
  rewrite Gfs, Gfw. by destruct v.
Qed.

Lemma AppContent_renderable (ctx : Provider) (colorScheme : option string) :
  renderable (theme ctx) = true ->
  exists e,
    AppContent ctx colorScheme = inr e
    /\ is_loading_screen e = isLoading ctx
    /\ is_error_screen e = negb (isLoading ctx) && shows_error ctx
    /\ is_main_screen e = negb (isLoading ctx) && negb (shows_error ctx).
Proof.
  intros R. destruct (renderable_parts _ R) as (C & _).
  unfold AppContent, shows_error. rewrite !dot2_spec, C.
  destruct (isLoading ctx); [cbn; eauto |].
  destruct (truthy (from_option JString JNull (error_message ctx))).
  - destruct (ThemedButton_renderable (theme ctx)
                {| title := "Retry"; variant := None; style := None;
                   textStyle := None |} R) as (s & c & ->).
    cbn. eauto.
  - destruct (ThemedButton_renderable (theme ctx)
                {| title := "Refresh Theme"; variant := Some "primary";
                   style := None; textStyle := None |} R) as (s & c & ->).
    destruct (ThemedButton_renderable (theme ctx)
                {| title := "Secondary Action"; variant := Some "secondary";
                   style := Some styles.secondaryButton;
                   textStyle := None |} R) as (s' & c' & ->).
    cbn. eauto.
Qed.

Lemma AppContent_unrenderable (ctx : Provider) (colorScheme : option string) :
  isLoading ctx = false ->
  renderable (theme ctx) = false ->
  AppContent ctx colorScheme = inl TypeError.
Proof.
  intros L R. unfold AppContent. rewrite L, !dot2_spec.
  rewrite !(ThemedButton_unrenderable _ _ R).
  destruct (truthy _), (negb (is_null (theme ctx)) && readable "colors" _);
    reflexivity.
Qed.

(** X13.  [ThemedButton] renders exactly the themes whose [colors],
    [spacing], [typography], [typography.fontSize] and
    [typography.fontWeight] are neither undefined nor [null]; on every other
    theme it throws a [TypeError], whatever its props. *)
Theorem ThemedButton_renders_iff (v : value) (props : ThemedButtonProps) :
  (renderable v = true <-> exists e, ThemedButton v props = inr e)
  /\ (renderable v = false -> ThemedButton v props = inl TypeError).
Proof.
  split; [split |].
  - intros R. destruct (ThemedButton_renderable v props R) as (s & c & E).
    eauto.
  - intros (e & E). destruct (renderable v) eqn:R; [done |].
    by rewrite (ThemedButton_unrenderable v props R) in E.
  - apply ThemedButton_unrenderable.
Qed.

(** X14.  On a typed theme, the button takes its background from [primary]
    when the variant is [primary] or left out and from [secondary] for any
    other variant, its padding from [spacing.md], its radius from
    [spacing.sm], and its label is drawn in the [background] colour with the
    [medium] font size and weight. *)
Theorem ThemedButton_of_Theme (T : Theme) (props : ThemedButtonProps) :
  ThemedButton (theme_value T) props
  = inr (TouchableOpacity
           [Some [("backgroundColor",
                   Some (JString
                           (match variant props with
                            | None => primary (colors T)
                            | Some s =>
                                if String.eqb s "primary"
                                then primary (colors T)
                                else secondary (colors T)
                            end)));
                  ("padding", Some (JNumber (md (spacing T))));
                  ("borderRadius", Some (JNumber (sm (spacing T))));
                  ("alignItems", Some (JString "center"));
                  ("justifyContent", Some (JString "center"))];
            style props]
           [Text
              [Some [("color", Some (JString (background (colors T))));
                     ("fontSize",
                      Some (JNumber
                              (FontSize.medium (fontSize (typography T)))));
                     ("fontWeight",
                      Some (JString
                              (FontWeight.medium
                                 (fontWeight (typography T)))))];
               textStyle props]
              (title props)]).
Proof.
  unfold ThemedButton.
  destruct (variant props) as [s |]; cbn; [| reflexivity].
  destruct (String.eqb s "primary"); reflexivity.
Qed.

(** X15.  A theme of the shape [types.ts] declares always renders:
    [AppContent] returns the loading screen while [isLoading], else the
    error screen when [error] is a non-empty string, else the main screen;
    an empty error message counts as no error. *)
Theorem AppContent_renders_Theme
    (ctx : Provider) (colorScheme : option string) :
  is_Theme (theme ctx) = true ->
  exists e,
    AppContent ctx colorScheme = inr e
    /\ is_loading_screen e = isLoading ctx
    /\ is_error_screen e = negb (isLoading ctx) && shows_error ctx
    /\ is_main_screen e = negb (isLoading ctx) && negb (shows_error ctx).
Proof.
  intros T. apply AppContent_renderable. by apply is_Theme_renderable.
Qed.

End Components.

Section Screens.
Context `{JSON}.

#[local] Arguments run : simpl never.

(** X16.  A remote document can crash the render: when Remote Config
    delivers a text that parses to a truthy value lacking one of the groups
    the components read into, [refreshTheme] makes it the theme and
    [AppContent] then throws a [TypeError]. *)
Theorem remote_document_crashes_render
    (w : World) (raw : string) (v : value) (colorScheme : option string) :
  remote_up w ->
  rc_backend (remote w) !! THEME_CONFIG_KEY = Some raw ->
  JSON_parse raw = Some v ->
  truthy v = true ->
  renderable v = false ->
  AppContent (provider (run refreshTheme w).2) colorScheme = inl TypeError.
Proof.
  intros U B P T R. rewrite run_refreshTheme.
  destruct (run fetchTheme (refreshing w)) as [r w1] eqn:F.
  rewrite run_fetchTheme,
    (fetchTheme_try_accepted (refreshing w) raw v U B P) in F.
  injection F as <- _. rewrite T. by apply AppContent_unrenderable.
Qed.

(** X17.  After [refreshTheme], whatever happened, [AppContent] shows
    neither the loading nor the error screen: if the theme it ended with can
    be rendered, what is rendered is the main screen. *)
Theorem refresh_then_main_screen (w : World) (colorScheme : option string) :
  renderable (theme (provider (run refreshTheme w).2)) = true ->
  exists e,
    AppContent (provider (run refreshTheme w).2) colorScheme = inr e
    /\ is_main_screen e = true.
Proof.
  intros R.
  destruct (AppContent_renderable _ colorScheme R) as (e & E & _ & _ & M).
  exists e. split; [exact E |]. rewrite M.
  rewrite run_refreshTheme.
  destruct (run fetchTheme (refreshing w)) as [r w1] eqn:F.
  pose proof (fetchTheme_provider _ _ _ F) as P.
  rewrite run_fetchTheme in F.
  destruct (run fetchTheme_try (refreshing w)) as [[e0 | v] w2];
    injection F as <- _; cbn; unfold shows_error; cbn; by rewrite P.
Qed.

(** X18.  First launch out of reach: when the remote path fails and the cache
    is empty, [refreshTheme] ends with [DEFAULT_THEME] as the theme and
    [AppContent] renders the main screen. *)
Theorem offline_first_launch_renders_default
    (w : World) (colorScheme : option string) :
  remote_path_fails (refreshing w) -> cache_empty w ->
  theme (provider (run refreshTheme w).2) = theme_value DEFAULT_THEME
  /\ exists e,
       AppContent (provider (run refreshTheme w).2) colorScheme = inr e
       /\ is_main_screen e = true.
Proof.
  intros (e0 & w1 & R) E.
  assert (provider (run refreshTheme w).2
          = {| theme := theme_value DEFAULT_THEME; isLoading := false;
               error_message := None |}) as ->.
  { rewrite run_refreshTheme, run_fetchTheme, R.
    apply fetchTheme_try_failure in R. destruct R as (St & _ & _ & Pr).
    rewrite (cached_of_empty w w1 E St). cbn. by rewrite Pr. }
  split; [reflexivity |].
  destruct (AppContent_renderable
              {| theme := theme_value DEFAULT_THEME; isLoading := false;
                 error_message := None |} colorScheme eq_refl)
    as (e & Ee & _ & _ & M).
  eauto.
Qed.

End Screens.

(** ** The further properties at work *)

Section FurtherConcrete.
Existing Instance Reference.json.

(** X1 at work: a first launch, then a second call. *)
Lemma initialize_after_success_is_noop_witness :
  let w1 := (run initialize (boot ∅ ∅ no_faults)).2 in
  run initialize w1 = (inr tt, w1).
Proof.
  apply (initialize_after_success_is_noop (boot ∅ ∅ no_faults)).
  vm_compute. reflexivity.
Defined.

(** X2 at work: the cache holds a malformed text. *)
Lemma getCachedTheme_degrades_to_null_witness :
  let w := boot (cache_of malformed_text) ∅ no_faults in
  run getCachedTheme w = (inr JNull, called (EvGetItem THEME_CACHE_KEY) w).
Proof.
  apply (getCachedTheme_degrades_to_null
           (boot (cache_of malformed_text) ∅ no_faults)).
  right. right. right. exists malformed_text.
  split; [reflexivity | vm_compute; reflexivity].
Defined.

(** X3 at work: the backend delivers the night theme and AsyncStorage
    rejects every call. *)
Lemma fetchTheme_without_storage_witness :
  let w := world_of false ∅ (backend_of night_text) no_faults disk_failure in
  exists w',
    run fetchTheme w = (inr (theme_value night), w')
    /\ storage w' = storage w.
Proof.
  apply (fetchTheme_without_storage
           (world_of false ∅ (backend_of night_text) no_faults disk_failure)
           night_text (theme_value night)).
  - intros t. reflexivity.
  - intros t. discriminate.
  - reflexivity.
  - vm_compute. reflexivity.
Defined.

(** X4 at work: a first fetch goes through, then Remote Config is out of
    reach. *)
Lemma fetchTheme_write_through_witness :
  let w := world_of false ∅ (backend_of night_text) (rejected_from 4)
             no_faults in
  let w1 := (run fetchTheme_try w).2 in
  remote_path_fails w1
  /\ run fetchTheme w = (inr (theme_value night), w1)
  /\ cache_holds w1 (theme_value night)
  /\ (remote_path_fails w1 ->
      exists w2, run fetchTheme w1 = (inr (theme_value night), w2)).
Proof.
  split.
  - do 2 eexists. vm_compute. reflexivity.
  - apply (fetchTheme_write_through
             (world_of false ∅ (backend_of night_text) (rejected_from 4)
                no_faults)).
    + vm_compute. reflexivity.
    + intros t. reflexivity.
    + split; [by vm_compute | vm_compute; reflexivity].
Defined.

(** X5 at work: first launch, empty cache, nothing at the backend. *)
Lemma fetchTheme_missing_key_empty_cache_witness :
  exists w',
    run fetchTheme (boot ∅ ∅ no_faults) = (inr JNull, w')
    /\ storage w' !! THEME_CACHE_KEY = Some (JSON_stringify JNull).
Proof.
  apply (fetchTheme_missing_key_empty_cache (boot ∅ ∅ no_faults)).
  - reflexivity.
  - intros t. reflexivity.
  - intros t. reflexivity.
  - reflexivity.
  - reflexivity.
  - split; [by vm_compute | vm_compute; reflexivity].
Defined.

(** X6 at work: first launch, the night theme cached, nothing at the
    backend. *)
Lemma fetchTheme_missing_key_serves_cache_witness :
  exists w',
    run fetchTheme (boot (cache_of night_text) ∅ no_faults)
    = (inr (theme_value night), w').
Proof.
  apply (fetchTheme_missing_key_serves_cache
           (boot (cache_of night_text) ∅ no_faults) (theme_value night)).
  - reflexivity.
  - intros t. reflexivity.
  - intros t. reflexivity.
  - exists night_text.
    split_and!; [reflexivity | by vm_compute | vm_compute; reflexivity].
  - reflexivity.
  - split; [by vm_compute | vm_compute; reflexivity].
Defined.

(** X7 at work: an initialized service fetches the night theme. *)
Lemma fetchTheme_initialized_no_reseed_witness :
  let w := world_of true ∅ (backend_of night_text) no_faults no_faults in
  let w' := (run fetchTheme w).2 in
  initialized w' = true
  /\ seedings w' = seedings w
  /\ rc_defaults (remote w') = rc_defaults (remote w)
  /\ rc_settings (remote w') = rc_settings (remote w).
Proof.
  apply (fetchTheme_initialized_no_reseed
           (world_of true ∅ (backend_of night_text) no_faults no_faults)
           _ (run fetchTheme
                (world_of true ∅ (backend_of night_text) no_faults
                   no_faults)).1).
  - reflexivity.
  - vm_compute. reflexivity.
Defined.

(** X8 at work: [setDefaults] is the call that is rejected. *)
Lemma initialize_partial_failure_witness :
  let w := boot ∅ ∅ (rejected_at 2) in
  exists w1,
    run initialize w = (inl (Error "network request failed"), w1)
    /\ initialized w1 = false
    /\ rc_settings (remote w1) = Some (0, 0)
    /\ rc_defaults (remote w1) = rc_defaults (remote w).
Proof.
  apply (initialize_partial_failure (boot ∅ ∅ (rejected_at 2))
           (Error "network request failed")); reflexivity.
Defined.

(** X9 at work: AsyncStorage rejects every call. *)
Lemma initialize_unreadable_cache_witness :
  let w := world_of false (cache_of night_text) ∅ no_faults disk_failure in
  exists w',
    run initialize w = (inr tt, w')
    /\ initialized w' = true
    /\ rc_defaults (remote w')
       = {[ THEME_CONFIG_KEY := JSON_stringify JNull ]}.
Proof.
  apply (initialize_unreadable_cache
           (world_of false (cache_of night_text) ∅ no_faults disk_failure)).
  - reflexivity.
  - intros t. reflexivity.
  - left. discriminate.
Defined.

(** X11 at work: the backend delivers the partial document. *)
Lemma refreshTheme_shows_remote_value_witness :
  exists w',
    run refreshTheme (boot ∅ (backend_of partial_text) no_faults)
    = (inr tt, w')
    /\ provider w' = {| theme := partial_theme; isLoading := false;
                        error_message := None |}.
Proof.
  apply (refreshTheme_shows_remote_value
           (boot ∅ (backend_of partial_text) no_faults) partial_text).
  - intros t. reflexivity.
  - reflexivity.
  - vm_compute. reflexivity.
  - reflexivity.
Defined.

(** X12 at work: the night theme cached, Remote Config out of reach. *)
Lemma refreshTheme_offline_shows_cached_witness :
  exists w',
    run refreshTheme (boot (cache_of night_text) ∅ unreachable)
    = (inr tt, w')
    /\ provider w' = {| theme := theme_value night; isLoading := false;
                        error_message := None |}.
Proof.
  apply (refreshTheme_offline_shows_cached
           (boot (cache_of night_text) ∅ unreachable)).
  - do 2 eexists. vm_compute. reflexivity.
  - exists night_text.
    split_and!; [reflexivity | by vm_compute | vm_compute; reflexivity].
  - intros t. reflexivity.
  - reflexivity.
Defined.

(** X15 at work: the provider as mounted, in dark mode. *)
Lemma AppContent_renders_Theme_witness :
  exists e,
    AppContent mounted (Some "dark") = inr e
    /\ is_loading_screen e = isLoading mounted
    /\ is_error_screen e = negb (isLoading mounted) && shows_error mounted
    /\ is_main_screen e
       = negb (isLoading mounted) && negb (shows_error mounted).
Proof.
  apply (AppContent_renders_Theme mounted (Some "dark")). reflexivity.
Defined.

(** X16 at work: the backend delivers the partial document, which has no
    [spacing]. *)
Lemma remote_document_crashes_render_witness :
  AppContent
    (provider (run refreshTheme
                 (boot ∅ (backend_of partial_text) no_faults)).2) None
  = inl TypeError.
Proof.
  apply (remote_document_crashes_render
           (boot ∅ (backend_of partial_text) no_faults)
           partial_text partial_theme None).
  - intros t. reflexivity.
  - reflexivity.
  - vm_compute. reflexivity.
  - reflexivity.
  - reflexivity.
Defined.

(** X17 at work: a refresh that found the night theme at the backend. *)
Lemma refresh_then_main_screen_witness :
  let w := boot ∅ (backend_of night_text) no_faults in
  exists e,
    AppContent (provider (run refreshTheme w).2) None = inr e
    /\ is_main_screen e = true.
Proof.
  apply (refresh_then_main_screen
           (boot ∅ (backend_of night_text) no_faults) None).
  vm_compute. reflexivity.
Defined.

(** X18 at work: first launch, empty cache, Remote Config out of reach. *)
Lemma offline_first_launch_renders_default_witness :
  let w := boot ∅ ∅ unreachable in
  theme (provider (run refreshTheme w).2) = theme_value DEFAULT_THEME
  /\ exists e,
       AppContent (provider (run refreshTheme w).2) (Some "light") = inr e
       /\ is_main_screen e = true.
Proof.
  apply (offline_first_launch_renders_default (boot ∅ ∅ unreachable)).
  - do 2 eexists. vm_compute. reflexivity.
  - reflexivity.
Defined.

End FurtherConcrete.


(** ** The cache read after a write, and the theme after a refresh *)

Section CacheAndProvider.
Context `{JSON}.

Lemma reparsed_round_trips (v : value) : round_trips v -> reparsed v = v.
Proof.
  intros [N P]. unfold reparsed.
  destruct (String.eqb_spec (JSON_stringify v) ""); [contradiction |].
  by rewrite P.
Qed.

Lemma reparsed_same (v : value) :
  is_null v = false -> reparsed v = v -> round_trips v.
Proof.
  unfold reparsed, round_trips. intros NN.
  destruct (String.eqb_spec (JSON_stringify v) "") as [E | E].
  - intros <-. discriminate NN.
  - destruct (JSON_parse (JSON_stringify v)) as [u |].
    + by intros ->.
    + intros <-. discriminate NN.
Qed.

Lemma cached_after_write (v : value) (w : World) :
  storage_faults w (clock w) = None ->
  storage_faults w (S (clock w)) = None ->
  cached (written v w) = reparsed v.
Proof.
  intros Uw Ur. unfold cached, written, reparsed.
  rewrite Uw. cbn. by rewrite Ur, lookup_insert_eq.
Qed.

Lemma cached_after_rejected_write (v : value) (w : World) (e : exn) :
  storage_faults w (clock w) = Some e ->
  storage_faults w (S (clock w)) = None ->
  cached (written v w)
  = match storage w !! THEME_CACHE_KEY with
    | Some s =>
        if String.eqb s "" then JNull
        else match JSON_parse s with
             | Some u => u
             | None => JNull
             end
    | None => JNull
    end.
Proof.
  intros Uw Ur. unfold cached, written. rewrite Uw. cbn. by rewrite Ur.
Qed.

Lemma cached_after_rejected_read (v : value) (w : World) :
  storage_faults w (S (clock w)) <> None -> cached (written v w) = JNull.
Proof.
  intros Ur. unfold cached.
  destruct (written_frame v w) as (_ & _ & ->).
  assert (clock (written v w) = S (clock w)) as ->.
  { unfold written. by destruct (storage_faults w (clock w)). }
  by destruct (storage_faults w (S (clock w))).
Qed.

(** C6 (as amended).  For every value [v], a theme or not, [cacheTheme v]
    followed at once by [getCachedTheme] never throws, and what it yields
    is settled by AsyncStorage and the codec.  When the write and the read
    are accepted it yields [JSON.parse(JSON.stringify(v))] ([null] for a text
    that is empty or does not parse): for a [v] other than [null], [v] itself
    exactly when the codec loses nothing of [v].  When the write is rejected
    and the read accepted, it yields what the cache held before, and [null]
    on an empty cache.  When the read is rejected it yields [null]. *)
Theorem cache_read_after_write (v : value) (w : World) :
  exists r w',
    run (cacheTheme v ;; getCachedTheme) w = (inr r, w')
    /\ (storage_faults w (clock w) = None ->
        storage_faults w (S (clock w)) = None ->
        r = reparsed v
        /\ (is_null v = false -> (r = v <-> round_trips v)))
    /\ (storage_faults w (clock w) <> None ->
        storage_faults w (S (clock w)) = None ->
        (forall u, cache_holds w u -> r = u)
        /\ (cache_empty w -> r = JNull))
    /\ (storage_faults w (S (clock w)) <> None -> r = JNull).
Proof.
  rewrite run_bind, run_cacheTheme, run_getCachedTheme.
  eexists _, _. split; [reflexivity |]. split_and!.
  - intros Uw Ur. rewrite (cached_after_write v w Uw Ur).
    split; [reflexivity |]. intros NN. split.
    + by apply reparsed_same.
    + apply reparsed_round_trips.
  - intros Uw Ur.
    destruct (storage_faults w (clock w)) as [e |] eqn:Fw; [| done].
    rewrite (cached_after_rejected_write v w e Fw Ur). split.
    + intros u (s & L & NE & P). rewrite L.
      destruct (String.eqb_spec s ""); [contradiction |]. by rewrite P.
    + intros E. unfold cache_empty in E. by rewrite E.
  - apply cached_after_rejected_read.
Qed.

(** C10 (as amended).  Whenever [fetchTheme] resolves, [refreshTheme] ends
    with [error] still [null] and [isLoading] false; it makes
    [DEFAULT_THEME] the current theme when the value is [null] or another
    falsy value, and the value itself, unchecked, when it is truthy.  So
    the current theme then has every field of a [Theme] exactly when
    [fetchTheme] resolved to a falsy value or to a value that has them. *)
Theorem refreshTheme_guards_only_falsy (w w1 : World) (v : value) :
  run fetchTheme (refreshing w) = (inr v, w1) ->
  exists w',
    run refreshTheme w = (inr tt, w')
    /\ isLoading (provider w') = false
    /\ error_message (provider w') = None
    /\ (truthy v = false -> theme (provider w') = theme_value DEFAULT_THEME)
    /\ (truthy v = true -> theme (provider w') = v)
    /\ (is_Theme (theme (provider w')) = true
        <-> truthy v = false \/ is_Theme v = true).
Proof.
  intros F. rewrite run_refreshTheme, F.
  apply fetchTheme_provider in F.
  eexists. split; [reflexivity |]. cbn [provider with_provider theme
    isLoading error_message].
  split_and!.
  - reflexivity.
  - by rewrite F.
  - by intros ->.
  - by intros ->.
  - destruct (truthy v) eqn:Tr.
    + split; [by right | by intros [? | ?]].
    + split; [by left | reflexivity].
Qed.

End CacheAndProvider.

Section CacheAndProviderConcrete.
Existing Instance Reference.json.

(** C6, counterexample.  Two themes the cache does not give back.  With
    AsyncStorage rejecting the write, [cacheTheme] swallows the rejection and
    the read that follows finds the empty cache: [null], not the default
    theme.  With AsyncStorage accepting both, a theme whose small font size
    is [Infinity] comes back with [null] in its place. *)
Lemma cache_round_trip_fails :
  (run (cacheTheme (theme_value DEFAULT_THEME) ;; getCachedTheme)
     (world_of false ∅ ∅ no_faults (disk_full_at 0))).1 = inr JNull
  /\ JNull <> theme_value DEFAULT_THEME
  /\ is_Theme overflowing = true
  /\ (run (cacheTheme overflowing ;; getCachedTheme)
        (boot ∅ ∅ no_faults)).1 = inr (small_font_size JNull)
  /\ small_font_size JNull <> overflowing.
Proof. split_and!; try discriminate; vm_compute; reflexivity. Qed.

(** C10, counterexample.  The backend delivers a document with most of the
    schema missing: after [refreshTheme] the provider is in its non-error
    state, not loading, and its current theme is that document, which is no
    [Theme]. *)
Lemma refreshTheme_shows_partial_theme :
  let w := boot ∅ (backend_of partial_text) no_faults in
  (run refreshTheme w).1 = inr tt
  /\ error_message (provider (run refreshTheme w).2) = None
  /\ isLoading (provider (run refreshTheme w).2) = false
  /\ theme (provider (run refreshTheme w).2) = partial_theme
  /\ is_Theme partial_theme = false.
Proof. split_and!; vm_compute; reflexivity. Qed.

(** C6 at work: the default theme through the reference codec, on a store
    that accepts the write and the read. *)
Lemma cache_read_after_write_witness :
  exists r w',
    run (cacheTheme (theme_value DEFAULT_THEME) ;; getCachedTheme)
      (boot ∅ ∅ no_faults)
    = (inr r, w')
    /\ r = theme_value DEFAULT_THEME.
Proof.
  destruct (cache_read_after_write (theme_value DEFAULT_THEME)
              (boot ∅ ∅ no_faults)) as (r & w' & R & A & _).
  exists r, w'. split; [exact R |].
  destruct (A eq_refl eq_refl) as [_ I]. apply (I eq_refl).
  split; [by vm_compute | vm_compute; reflexivity].
Defined.

(** C10 at work: the night theme cached, Remote Config out of reach, so
    that [fetchTheme] resolves to the cached theme. *)
Lemma refreshTheme_guards_only_falsy_witness :
  exists w',
    run refreshTheme (boot (cache_of night_text) ∅ unreachable)
    = (inr tt, w')
    /\ isLoading (provider w') = false
    /\ error_message (provider w') = None
    /\ (truthy (theme_value night) = false
        -> theme (provider w') = theme_value DEFAULT_THEME)
    /\ (truthy (theme_value night) = true
        -> theme (provider w') = theme_value night)
    /\ (is_Theme (theme (provider w')) = true
        <-> truthy (theme_value night) = false
            \/ is_Theme (theme_value night) = true).
Proof.
  apply (refreshTheme_guards_only_falsy
           (boot (cache_of night_text) ∅ unreachable)
           (run fetchTheme
              (refreshing (boot (cache_of night_text) ∅ unreachable))).2
           (theme_value night)).
  vm_compute. reflexivity.
Defined.

End CacheAndProviderConcrete.
